(** * tookey-io/web3-sdk: session manager and out-of-band action broker

    A shallow embedding of [src/web3.ts] (class [TookeyWeb3]) and of
    [getPath] from the utilities, together with the part of the HTTP
    client (axios) and of the browser the class drives.

    Promises are run to completion: an [async] method is a function from
    the world before the call to the world after it, settling with a value
    ([Returned]) or with a thrown value ([Thrown]).  The only loop of the
    program is the response interceptor re-entering the client, so the
    client is defined by recursion on a fuel counter. *)

From Stdlib Require Import String Ascii List ZArith Bool Lia Arith.
From Stdlib Require Import DecimalString.
Import ListNotations.
Local Open Scope string_scope.
Local Open Scope list_scope.
Local Set Warnings "-register-all".

(** ** JavaScript values *)

Module Js.

(** The JSON-like values that travel through the program: response bodies,
    credentials, tokens, the stored user, message payloads.  [VNum n] is
    the Number [n], an integer within the safe range (below 2^53 in
    absolute value), where a Number is printed as its decimal digits. *)
Inductive value : Type :=
| VUndefined
| VNull
| VBool (b : bool)
| VNum (n : Z)
| VStr (s : string)
| VObj (fields : list (string * value)).

(** What a [throw] carries.  [JsError msg] is [new Error(msg)]; [TypeError]
    is what reading a property of [undefined] or [null] raises. *)
Inductive exn : Type :=
| JsError (msg : string)
| TypeError.

(** [!!v] *)
Definition truthy (v : value) : bool :=
  match v with
  | VUndefined | VNull => false
  | VBool b => b
  | VNum n => negb (Z.eqb n 0)
  | VStr s => negb (String.eqb s "")
  | VObj _ => true
  end.

(** [typeof v === 'string'] *)
Definition is_string (v : value) : bool :=
  match v with VStr _ => true | _ => false end.

(** [v === lit] for a string literal [lit] *)
Definition strict_eq_str (v : value) (lit : string) : bool :=
  match v with VStr s => String.eqb s lit | _ => false end.

Fixpoint assoc {A : Type} (k : string) (l : list (string * A)) : option A :=
  match l with
  | [] => None
  | (k', a) :: l' => if String.eqb k k' then Some a else assoc k l'
  end.

(** [v.k]: a [TypeError] on [undefined] and [null], the field or
    [undefined] on an object, [undefined] on the other primitives (none of
    the names the program reads is a property of a primitive wrapper). *)
Definition get_prop (v : value) (k : string) : exn + value :=
  match v with
  | VUndefined | VNull => inl TypeError
  | VObj fields =>
      match assoc k fields with
      | Some x => inr x
      | None => inr VUndefined
      end
  | _ => inr VUndefined
  end.

Definition Z_to_string (n : Z) : string :=
  NilZero.string_of_int (Z.to_int n).

(** [`${v}`], a Number being a safe integer. *)
Definition template (v : value) : string :=
  match v with
  | VUndefined => "undefined"
  | VNull => "null"
  | VBool true => "true"
  | VBool false => "false"
  | VNum n => Z_to_string n
  | VStr s => s
  | VObj _ => "[object Object]"
  end.

End Js.
Import Js.

(** ** The HTTP client (axios) *)

Module Axios.

Inductive http_method : Type := GET | POST.

(** [AxiosRequestConfig], the fields the program sets. *)
Record config : Type := mkConfig {
  method : http_method;
  url : string;
  headers : list (string * string);
  data : value
}.

(** Header names are told apart without regard to case: [AxiosHeaders]
    looks a name up in lower case among the keys in lower case.  (It also
    trims the name it is given; the names here are taken without white
    space around them, as the one name the program sets is.) *)
Definition lower (a : ascii) : ascii :=
  let n := nat_of_ascii a in
  if ((65 <=? n) && (n <=? 90))%nat then ascii_of_nat (n + 32) else a.

Fixpoint toLowerCase (s : string) : string :=
  match s with
  | EmptyString => EmptyString
  | String a s' => String (lower a) (toLowerCase s')
  end.

Definition same_name (a b : string) : bool :=
  String.eqb (toLowerCase a) (toLowerCase b).

(** [headers.set(name, v)]: the entry of that name, whatever its case, is
    overwritten under the key it has; without one the entry is added. *)
Fixpoint headers_set (name v : string) (hs : list (string * string))
  : list (string * string) :=
  match hs with
  | [] => [(name, v)]
  | (n, x) :: hs' =>
      if same_name name n then (n, v) :: hs' else (n, x) :: headers_set name v hs'
  end.

Definition set_header (c : config) (name v : string) : config :=
  mkConfig (method c) (url c) (headers_set name v (headers c)) (data c).

(** The value the request carries under a name. *)
Definition header (name : string) (c : config) : option string :=
  match find (fun p => same_name name (fst p)) (headers c) with
  | Some p => Some (snd p)
  | None => None
  end.

(** How many entries of that name the request carries. *)
Definition header_count (name : string) (c : config) : nat :=
  length (filter (fun p => same_name name (fst p)) (headers c)).

(** What the transport gives back for one request: an HTTP reply, or
    nothing (network failure, timeout). *)
Inductive outcome : Type :=
| Reply (status : Z) (body : value)
| NoReply.

Record response : Type := mkResponse {
  r_status : Z;
  r_data : value;
  r_config : config
}.

(** [AxiosError]: the request's config and, when the server replied, the
    response. *)
Record axios_error : Type := mkError {
  e_config : config;
  e_response : option response
}.

(** The default [validateStatus]. *)
Definition validateStatus (status : Z) : bool :=
  (200 <=? status)%Z && (status <? 300)%Z.

(** What [await client.request(...)] evaluates to once the response
    interceptors have run: a response, or (the interceptor returning its
    argument) the error object itself. *)
Inductive settled : Type :=
| IsResponse (r : response)
| IsError (e : axios_error).

(** [x.data] on such an object: an [AxiosError] has no [data] field. *)
Definition data_of (x : settled) : value :=
  match x with
  | IsResponse r => r_data r
  | IsError _ => VUndefined
  end.

(** [InterceptorManager]: [use] pushes a handler and returns its index,
    [eject] overwrites the slot with [null].  The handlers of the request
    manager are the closures [createAccessTokenInterceptor(accessToken)],
    kept here as the captured [accessToken]. *)
Definition handlers : Type := list (option value).

Definition use (h : value) (hs : handlers) : handlers * nat :=
  (hs ++ [Some h], length hs).

Fixpoint eject (id : nat) (hs : handlers) : handlers :=
  match hs, id with
  | [], _ => []
  | _ :: hs', O => None :: hs'
  | h :: hs', S id' => h :: eject id' hs'
  end.

End Axios.
Import Axios.

(** ** The event bus *)

Module Emitter.

Inductive event_key : Type := login | logout.

Definition event_key_eqb (a b : event_key) : bool :=
  match a, b with
  | login, login | logout, logout => true
  | _, _ => false
  end.

(** The handlers that get registered: the closure of [useCredentials],
    [() => interceptors.request.eject(id)], and handlers of the embedding
    application, which only observe and are told apart by a name. *)
Inductive handler : Type :=
| EjectInterceptor (id : nat)
| Subscriber (name : string).

(** Modelled from the spec: [./events/emitter] (the module-level [emitter]
    with its [on] and [emit]) is not among the sources.  Section 4.4:
    a minimal typed publish/subscribe, two event kinds, subscribers
    register a handler for a kind, publishing calls the handlers of that
    kind with the payload; there is no unsubscribe.  [emitted] records the
    calls of [emit], [delivered] what each subscriber was called with. *)
Record emitter : Type := mkEmitter {
  subscriptions : list (event_key * handler);
  emitted : list (event_key * value);
  delivered : list (string * event_key * value)
}.

Definition empty : emitter := mkEmitter [] [] [].

(** Modelled from the spec: [emitter.on], missing with the emitter;
    registers the handler for the kind, after the ones already there. *)
Definition on (k : event_key) (h : handler) (b : emitter) : emitter :=
  mkEmitter (subscriptions b ++ [(k, h)]) (emitted b) (delivered b).

Definition handlers_for (k : event_key) (b : emitter) : list handler :=
  map snd (filter (fun p => event_key_eqb k (fst p)) (subscriptions b)).

Definition count_emitted (k : event_key) (b : emitter) : nat :=
  length (filter (fun p => event_key_eqb k (fst p)) (emitted b)).

End Emitter.
Import Emitter.

(** ** The session manager: class [TookeyWeb3] *)

Module Session.

Record session : Type := mkSession {
  _baseURL : value;
  _user : value;
  userRefreshToken : value;
  request_handlers : handlers;      (* this._client.interceptors.request *)
  bus : emitter;
  console : list exn                (* what console.error was called with *)
}.

(** The object the constructor returns for options the schema accepts
    ([baseURL] a string, or absent): nothing stored, no request
    interceptor, the one response interceptor (it is part of [request]
    below). *)
Definition create (baseURL : value) : session :=
  mkSession baseURL VUndefined VUndefined [] Emitter.empty [].

Definition set_user (v : value) (s : session) : session :=
  mkSession (_baseURL s) v (userRefreshToken s) (request_handlers s) (bus s) (console s).

Definition set_userRefreshToken (v : value) (s : session) : session :=
  mkSession (_baseURL s) (_user s) v (request_handlers s) (bus s) (console s).

Definition set_request_handlers (hs : handlers) (s : session) : session :=
  mkSession (_baseURL s) (_user s) (userRefreshToken s) hs (bus s) (console s).

Definition set_bus (b : emitter) (s : session) : session :=
  mkSession (_baseURL s) (_user s) (userRefreshToken s) (request_handlers s) b (console s).

Definition console_error (e : exn) (s : session) : session :=
  mkSession (_baseURL s) (_user s) (userRefreshToken s) (request_handlers s) (bus s)
            (console s ++ [e]).

(** [get isLoggedIn] *)
Definition isLoggedIn (s : session) : bool :=
  truthy (_user s) && truthy (userRefreshToken s).

(** [get baseURL] *)
Definition baseURL (s : session) : string := template (_baseURL s).

(** [on(event, handler)]: [emitter.on(event, handler)]. *)
Definition on (k : event_key) (h : handler) (s : session) : session :=
  set_bus (Emitter.on k h (bus s)) s.

Definition call_handler (k : event_key) (payload : value) (s : session) (h : handler)
  : session :=
  match h with
  | EjectInterceptor id => set_request_handlers (eject id (request_handlers s)) s
  | Subscriber name =>
      set_bus (mkEmitter (subscriptions (bus s)) (emitted (bus s))
                         (delivered (bus s) ++ [(name, k, payload)])) s
  end.

(** Modelled from the spec: [emitter.emit], missing with the emitter, as
    [emit(event, payload)] of the class calls it; the handlers of the kind
    are called in the order of their registration. *)
Definition emit (k : event_key) (payload : value) (s : session) : session :=
  let s1 := set_bus (mkEmitter (subscriptions (bus s)) (emitted (bus s) ++ [(k, payload)])
                               (delivered (bus s))) s in
  fold_left (call_handler k payload) (handlers_for k (bus s)) s1.

(** The closure [createAccessTokenInterceptor(accessToken)]. *)
Definition createAccessTokenInterceptor (accessToken : value) (c : config) : config :=
  if truthy accessToken
  then set_header c "Authorization" ("Bearer " ++ template accessToken)%string
  else c.

(** [useCredentials({ accessToken })] *)
Definition useCredentials (accessToken : value) (s : session) : session :=
  let (hs, apiCredentialsInterceptorId) := use accessToken (request_handlers s) in
  on Emitter.logout (EjectInterceptor apiCredentialsInterceptorId)
     (set_request_handlers hs s).

(** The request part of the chain axios builds for one request: every
    handler that is not ejected is put in front of the chain
    ([requestInterceptorChain.unshift]), so the handler registered last
    runs first and the one registered first runs last. *)
Definition run_request_interceptors (hs : handlers) (c : config) : config :=
  fold_right
    (fun h c' => match h with
                 | Some accessToken => createAccessTokenInterceptor accessToken c'
                 | None => c'
                 end)
    c hs.

End Session.
Import Session.

(** ** Running the asynchronous methods *)

Section Client.

(** The remote service: any state machine answering one request at a
    time. *)
Variable Srv : Type.
Variable serve : Srv -> config -> Srv * outcome.

Record world : Type := mkWorld {
  sess : session;
  srv : Srv;
  traffic : list (config * outcome)   (* the requests handed to the transport
                                         and what came back, oldest first *)
}.

Inductive run (A : Type) : Type :=
| Returned (a : A) (w : world)
| Thrown (e : exn) (w : world)
| OutOfFuel.

Arguments Returned {A} a w.
Arguments Thrown {A} e w.
Arguments OutOfFuel {A}.

Definition M (A : Type) : Type := world -> run A.

Definition ret {A : Type} (a : A) : M A := fun w => Returned a w.

Definition throw {A : Type} (e : exn) : M A := fun w => Thrown e w.

Definition bind {A B : Type} (m : M A) (k : A -> M B) : M B :=
  fun w =>
    match m w with
    | Returned a w' => k a w'
    | Thrown e w' => Thrown e w'
    | OutOfFuel => OutOfFuel
    end.

(** [try { m } catch (e) { h(e) }] *)
Definition try_catch {A : Type} (m : M A) (h : exn -> M A) : M A :=
  fun w =>
    match m w with
    | Returned a w' => Returned a w'
    | Thrown e w' => h e w'
    | OutOfFuel => OutOfFuel
    end.

Definition lift {A : Type} (x : exn + A) : M A :=
  match x with
  | inl e => throw e
  | inr a => ret a
  end.

(** A statement that only updates the fields of [this]. *)
Definition modify (f : session -> session) : M unit :=
  fun w => Returned tt (mkWorld (f (sess w)) (srv w) (traffic w)).

Definition this : M session := fun w => Returned (sess w) w.

Notation "x <- m ;; k" := (bind m (fun x => k))
  (at level 61, m at next level, right associativity).
Notation "m ;;; k" := (bind m (fun _ => k))
  (at level 61, right associativity).

(** The methods, over the client's [request] they call. *)
Section Methods.

Variable request : config -> M settled.

(** [this._client.post(url, data, { headers })] *)
Definition post (u : string) (d : value) (hs : list (string * string)) : M settled :=
  request (mkConfig POST u hs d).

(** [this._client.get(url)] *)
Definition get (u : string) : M settled :=
  request (mkConfig GET u [] VUndefined).

Definition fetchUser_body : M value :=
  x <- get "/api/users/me" ;;
  let user := data_of x in
  modify (set_user user) ;;;
  ret user.

Definition refreshToken_body : M value :=
  try_catch
    (s <- this ;;
     if negb (truthy (userRefreshToken s))
     then throw (JsError "Refresh token not found")
     else
       response <- post "/api/auth/refresh" VUndefined
                        [("Authorization", ("Bearer " ++ template (userRefreshToken s))%string)] ;;
       accessToken <- lift (get_prop (data_of response) "token") ;;
       modify (useCredentials accessToken) ;;;
       fetchUser_body ;;;
       ret (data_of response))
    (fun _ => throw (JsError "Refresh token failed")).

Definition is_401 (error : axios_error) : bool :=
  match e_response error with
  | Some r => Z.eqb (r_status r) 401
  | None => false
  end.

(** The second argument of [interceptors.response.use]. *)
Definition response_rejected (error : axios_error) : M settled :=
  s <- this ;;
  if is_401 error && truthy (userRefreshToken s)
  then
    try_catch
      (refreshToken_body ;;;
       request (e_config error))
      (fun err =>
         modify (console_error err) ;;;
         ret (IsError error))
  else ret (IsError error).

Definition authWithDiscord_body (credentials : value) : M unit :=
  response <- post "/api/auth/discord" credentials [] ;;
  access <- lift (get_prop (data_of response) "access") ;;
  accessToken <- lift (get_prop access "token") ;;
  refresh <- lift (get_prop (data_of response) "refresh") ;;
  token <- lift (get_prop refresh "token") ;;
  modify (set_userRefreshToken token) ;;;
  modify (useCredentials accessToken).

Definition logout_body : M unit :=
  try_catch
    (post "/api/auth/logout" VUndefined [] ;;;
     modify (set_user VUndefined) ;;;
     modify (set_userRefreshToken VUndefined) ;;;
     modify (emit Emitter.logout VNull))
    (fun _ => throw (JsError "Logout failed")).

End Methods.

(** The transport: the request goes out as the request interceptors left
    it, and the reply is settled by [validateStatus]. *)
Definition dispatch (c : config) : M (response + axios_error) :=
  fun w =>
    let (srv', out) := serve (srv w) c in
    let w' := mkWorld (sess w) srv' (traffic w ++ [(c, out)]) in
    match out with
    | Reply status body =>
        let r := mkResponse status body c in
        if validateStatus status
        then Returned (inl r) w'
        else Returned (inr (mkError c (Some r))) w'
    | NoReply => Returned (inr (mkError c None)) w'
    end.

(** [this._client.request(config)]: request interceptors, transport, then
    the response interceptor of the constructor, whose first argument is
    the identity and whose second is [response_rejected], calling back
    into this same client. *)
Fixpoint request (fuel : nat) (c : config) : M settled :=
  match fuel with
  | O => fun _ => OutOfFuel
  | S fuel' =>
      s <- this ;;
      r <- dispatch (run_request_interceptors (request_handlers s) c) ;;
      match r with
      | inl response => ret (IsResponse response)
      | inr error => response_rejected (request fuel') error
      end
  end.

Definition fetchUser (fuel : nat) : M value := fetchUser_body (request fuel).
Definition refreshToken (fuel : nat) : M value := refreshToken_body (request fuel).
Definition authWithDiscord (fuel : nat) (credentials : value) : M unit :=
  authWithDiscord_body (request fuel) credentials.
Definition logout (fuel : nat) : M unit := logout_body (request fuel).

End Client.

Arguments mkWorld {Srv} sess srv traffic.
Arguments sess {Srv} w.
Arguments srv {Srv} w.
Arguments traffic {Srv} w.
Arguments Returned {Srv A} a w.
Arguments Thrown {Srv A} e w.
Arguments OutOfFuel {Srv A}.
Arguments request {Srv} serve fuel c w.
Arguments fetchUser {Srv} serve fuel w.
Arguments refreshToken {Srv} serve fuel w.
Arguments authWithDiscord {Srv} serve fuel credentials w.
Arguments logout {Srv} serve fuel w.

(** ** The path builder: [getPath] *)

Module Utils.

(** A JavaScript object used as a record: its own enumerable properties in
    order, one entry per name (the special place of integer-like names in
    that order is not modelled). *)
Definition object : Type := list (string * value).

(** [o[k] = v] *)
Fixpoint obj_set (k : string) (v : value) (o : object) : object :=
  match o with
  | [] => [(k, v)]
  | (k', v') :: o' =>
      if String.eqb k k' then (k', v) :: o' else (k', v') :: obj_set k v o'
  end.

(** [Object.fromEntries(entries)]: the entries are defined one after the
    other. *)
Definition fromEntries (entries : list (string * value)) : object :=
  fold_left (fun o p => obj_set (fst p) (snd p) o) entries [].

(** [{ ...data, roomId }] *)
Definition spread_with_roomId (data : object) (roomId : value) : object :=
  obj_set "roomId" roomId (fromEntries data).

(** The application/x-www-form-urlencoded byte serializer, which
    [URLSearchParams.prototype.toString] applies to names and values:
    strings are taken as their UTF-8 bytes. *)
Definition unreserved (a : ascii) : bool :=
  let n := nat_of_ascii a in
  (((48 <=? n) && (n <=? 57)) || ((65 <=? n) && (n <=? 90)) || ((97 <=? n) && (n <=? 122))
   || (n =? 42) || (n =? 45) || (n =? 46) || (n =? 95))%nat.

Definition hex_digit (n : nat) : ascii :=
  if (n <? 10)%nat then ascii_of_nat (48 + n) else ascii_of_nat (55 + n).

Fixpoint urlencode (s : string) : string :=
  match s with
  | EmptyString => EmptyString
  | String a s' =>
      if unreserved a then String a (urlencode s')
      else if Ascii.eqb a " " then String "+" (urlencode s')
      else String "%" (String (hex_digit (nat_of_ascii a / 16))
                      (String (hex_digit (nat_of_ascii a mod 16)) (urlencode s')))
  end.

Definition string_of_value (v : value) : string := template v.

(** [new URLSearchParams(params).toString()] for a record [params]. *)
Fixpoint URLSearchParams_toString (params : object) : string :=
  match params with
  | [] => ""
  | (k, v) :: rest =>
      let pair := (urlencode k ++ "=" ++ urlencode (string_of_value v))%string in
      match rest with
      | [] => pair
      | _ :: _ => (pair ++ "&" ++ URLSearchParams_toString rest)%string
      end
  end.

Definition query_of (data : object) : string :=
  let params := fromEntries (filter (fun p => is_string (snd p)) data) in
  URLSearchParams_toString params.

Definition getPath (url : string) (data : object) : string :=
  (url ++ "?" ++ query_of data)%string.

(** Reading a query string back, as the receiving page does
    ([new URLSearchParams(location.search)]): the
    application/x-www-form-urlencoded parser.  It is not part of the
    program; the statements about the popup URL are phrased with it. *)
Definition hex_value (a : ascii) : option nat :=
  let n := nat_of_ascii a in
  if ((48 <=? n) && (n <=? 57))%nat then Some (n - 48)
  else if ((65 <=? n) && (n <=? 70))%nat then Some (n - 55)
  else if ((97 <=? n) && (n <=? 102))%nat then Some (n - 87)
  else None.

Fixpoint urldecode (s : string) : string :=
  match s with
  | EmptyString => EmptyString
  | String a s' =>
      if Ascii.eqb a "%" then
        match s' with
        | String h (String l rest) =>
            match hex_value h, hex_value l with
            | Some x, Some y => String (ascii_of_nat (16 * x + y)) (urldecode rest)
            | _, _ => String a (urldecode s')
            end
        | _ => String a (urldecode s')
        end
      else String (if Ascii.eqb a "+" then " "%char else a) (urldecode s')
  end.

Fixpoint split_on (sep : ascii) (s : string) : list string :=
  match s with
  | EmptyString => [EmptyString]
  | String a s' =>
      if Ascii.eqb a sep then EmptyString :: split_on sep s'
      else match split_on sep s' with
           | piece :: pieces => String a piece :: pieces
           | [] => [String a EmptyString]
           end
  end.

Fixpoint split_first (sep : ascii) (s : string) : string * string :=
  match s with
  | EmptyString => (EmptyString, EmptyString)
  | String a s' =>
      if Ascii.eqb a sep then (EmptyString, s')
      else let (name, rest) := split_first sep s' in (String a name, rest)
  end.

Definition parse_query (q : string) : list (string * string) :=
  map (fun piece =>
         let (name, v) := split_first "=" piece in (urldecode name, urldecode v))
      (filter (fun piece => negb (String.eqb piece "")) (split_on "&" q)).

(** [free_of sep s]: the byte [sep] does not occur in [s]. *)
Fixpoint free_of (sep : ascii) (s : string) : bool :=
  match s with
  | EmptyString => true
  | String a s' => negb (Ascii.eqb a sep) && free_of sep s'
  end.

(** One [name=value] of the serialized query. *)
Definition pair_of (k : string) (v : value) : string :=
  (urlencode k ++ "=" ++ urlencode (string_of_value v))%string.

(** The entries of an object whose value is a string. *)
Fixpoint string_entries (o : object) : list (string * string) :=
  match o with
  | [] => []
  | (k, VStr v) :: o' => (k, v) :: string_entries o'
  | _ :: o' => string_entries o'
  end.

End Utils.
Import Utils.

(** ** The out-of-band action broker *)

Module Broker.

Inductive promise_state : Type :=
| Pending
| Resolved
| Rejected (detail : string).

(** [resolve()]: settles a pending promise, does nothing to a settled
    one. *)
Definition resolve (p : promise_state) : promise_state :=
  match p with
  | Pending => Resolved
  | _ => p
  end.

(** The window [window.open] returned. *)
Record popup_window : Type := mkPopup {
  location : string;
  closed : bool
}.

Definition close (p : popup_window) : popup_window := mkPopup (location p) true.

(** The host, as far as [openWindow] depends on it.  In a browser the
    reads of [window], [document] and [screen] succeed.  Where there is no
    global [window] the first read throws.  In between is a window whose
    [document] is missing or cannot create elements: there the reads throw
    or not as the window's own size and screen allow, and [unreadable] is
    the message of what is thrown, if anything is. *)
Inductive host : Type :=
| NoWindow
| BareWindow (unreadable : option string)
| Browser.

(** The hosting page: its host, and whether [window.open] yields a window
    or [null].  The size and position handed to [window.open] are not
    modelled. *)
Record page : Type := mkPage {
  host_of : host;
  popup_blocked : bool
}.

(** [canUseDom] of the utilities:
    [typeof window !== 'undefined' && window.document && window.document.createElement] *)
Definition canUseDom (pg : page) : bool :=
  match host_of pg with
  | Browser => true
  | _ => false
  end.

(** One call of [createWallet] or [signTransaction]: the promise it
    returned, the popup and the message listener it left behind. *)
Record invocation : Type := mkInvocation {
  promise : promise_state;
  popup : option popup_window;
  listening : option string      (* the listener, with the [this.baseURL] it compares to *)
}.

Record message_event : Type := mkMessage {
  origin : string;
  payload : value                 (* event.data *)
}.

(** [openWindow(path)]: without [canUseDom] a warning goes to the console
    and the method goes on; it ends early only where a read throws. *)
Definition openWindow (s : session) (pg : page) (path : string)
  : string + option popup_window :=
  match host_of pg with
  | NoWindow => inl "window is not defined"
  | BareWindow (Some message) => inl message
  | BareWindow None | Browser =>
      inr (if popup_blocked pg then None
           else Some (mkPopup (baseURL s ++ path)%string false))
  end.

(** The executor both methods hand to [new Promise]. *)
Definition open_and_listen (s : session) (pg : page) (path : string) : invocation :=
  match openWindow s pg path with
  | inr popup => mkInvocation Pending popup (Some (baseURL s))
  | inl message => mkInvocation (Rejected message) None None
  end.

(** [createWallet(roomId)] *)
Definition createWallet (s : session) (pg : page) (roomId : value) : invocation :=
  open_and_listen s pg (getPath "/auth" [("roomId", roomId)]).

(** [signTransaction(roomId, data)] *)
Definition signTransaction (s : session) (pg : page) (roomId : value) (data : object)
  : invocation :=
  open_and_listen s pg (getPath "/transaction/send" (spread_with_roomId data roomId)).

(** The listener registered with [window.addEventListener('message', ...)],
    run on one message. *)
Definition on_message (event : message_event) (i : invocation) : invocation :=
  match listening i with
  | Some base =>
      if String.eqb (origin event) base
      then mkInvocation
             (resolve (promise i))
             (match popup i with
              | Some p => if strict_eq_str (payload event) "close" then Some (close p)
                          else Some p
              | None => None
              end)
             (listening i)
      else i
  | None => i
  end.

End Broker.
Import Broker.

(** ** Scripted services *)

Module Scenario.

(** A service that answers each path from a queue of its own, and does not
    answer at all once the queue is used up or for a path it does not
    know. *)
Definition script : Type := list (string * list outcome).

Fixpoint scripted (sc : script) (c : config) : script * outcome :=
  match sc with
  | [] => ([], NoReply)
  | (path, outs) :: rest =>
      if String.eqb (url c) path
      then match outs with
           | [] => (sc, NoReply)
           | o :: outs' => ((path, outs') :: rest, o)
           end
      else let (rest', o) := scripted rest c in ((path, outs) :: rest', o)
  end.

Definition token_record (t : string) : value :=
  VObj [("token", VStr t); ("validUntil", VStr "2030-01-01T00:00:00Z")].

Definition auth_tokens (access refresh : string) : value :=
  VObj [("access", token_record access); ("refresh", token_record refresh)].

Definition a_user : value :=
  VObj [("id", VNum 7); ("wallet", VObj [("eth_address", VStr "0xabc")])].

Definition credentials : value := VObj [("code", VStr "discord-code")].

Definition start (sc : script) : world script :=
  mkWorld (create (VStr "https://wallet.example")) sc [].

(** A session holding a user and a refresh credential, with the access
    credential [access] installed, as a login followed by [fetchUser]
    leaves it. *)
Definition logged_in_session (access refresh : string) : session :=
  set_user a_user
    (useCredentials (VStr access)
       (set_userRefreshToken (VStr refresh) (create (VStr "https://wallet.example")))).

Definition logged_in (access refresh : string) (sc : script) : world script :=
  mkWorld (logged_in_session access refresh) sc [].

(** The requests of a log that went to one path. *)
Definition to_path (path : string) (log : list (config * outcome)) : list (config * outcome) :=
  filter (fun x => String.eqb (url (fst x)) path) log.

(** The session of a fresh client to which the embedding application has
    subscribed a handler for [login]. *)
Definition subscribed (sc : script) : world script :=
  mkWorld (on login (Subscriber "app") (create (VStr "https://wallet.example"))) sc [].

(** A protected path that answers 401 twice before it answers 200, next
    to a refresh endpoint and an identity endpoint that work. *)
Definition twice_unauthorized : script :=
  [("/api/tokens", [Reply 401 VNull; Reply 401 VNull; Reply 200 (VStr "ok")]);
   ("/api/auth/refresh", [Reply 200 (token_record "B"); Reply 200 (token_record "C")]);
   ("/api/users/me", [Reply 200 a_user; Reply 200 a_user])].

(** The same with a single 401. *)
Definition once_unauthorized : script :=
  [("/api/tokens", [Reply 401 VNull; Reply 200 (VStr "ok")]);
   ("/api/auth/refresh", [Reply 200 (token_record "B")]);
   ("/api/users/me", [Reply 200 a_user])].

(** A protected path that answers 401 and a refresh endpoint that answers
    500. *)
Definition refresh_refused : script :=
  [("/api/tokens", [Reply 401 VNull]);
   ("/api/auth/refresh", [Reply 500 VNull])].

(** A service on which login and refresh work. *)
Definition healthy : script :=
  [("/api/auth/discord", [Reply 200 (auth_tokens "A" "R")]);
   ("/api/auth/refresh", [Reply 200 (token_record "B")]);
   ("/api/users/me", [Reply 200 a_user; Reply 200 a_user])].

(** A service whose protected paths answer 401 every time, while refresh
    and identity fetch work. *)
Definition always_unauthorized (st : unit) (c : config) : unit * outcome :=
  if String.eqb (url c) "/api/auth/refresh" then (st, Reply 200 (token_record "B"))
  else if String.eqb (url c) "/api/users/me" then (st, Reply 200 a_user)
  else (st, Reply 401 VNull).

Definition logout_refused : script := [("/api/auth/logout", [Reply 500 VNull])].

Definition identity_refused : script := [("/api/users/me", [Reply 500 VNull])].

Definition get_tokens : config := mkConfig GET "/api/tokens" [] VUndefined.

(** An unsigned transaction with a field that is not a string. *)
Definition a_transaction : object :=
  [("to", VStr "0xdef"); ("value", VStr "1 000"); ("nonce", VNum 3)].

Definition a_page : page := mkPage Browser false.

End Scenario.
Import Scenario.

(** ** Relations used in the statements *)

Section Relations.

Variable Srv : Type.

(** What the client leaves alone whatever the service answers: the log of
    exchanges and the list of request interceptors only grow, the refresh
    credential, the base URL and the record of published events stay. *)
Definition frame (w w' : world Srv) : Prop :=
  (exists l, traffic w' = traffic w ++ l) /\
  (exists hs, request_handlers (sess w') = request_handlers (sess w) ++ hs) /\
  userRefreshToken (sess w') = userRefreshToken (sess w) /\
  _baseURL (sess w') = _baseURL (sess w) /\
  emitted (bus (sess w')) = emitted (bus (sess w)) /\
  delivered (bus (sess w')) = delivered (bus (sess w)).

Definition in_frame {A : Type} (m : M Srv A) : Prop :=
  forall w,
    match m w with
    | Returned _ w' | Thrown _ w' => frame w w'
    | OutOfFuel => True
    end.

(** [m'] settles as [m] does wherever [m] has fuel enough to settle. *)
Definition settles_as {A : Type} (m m' : M Srv A) : Prop :=
  forall w, m w <> OutOfFuel -> m' w = m w.

End Relations.

Arguments frame {Srv} w w'.
Arguments in_frame {Srv A} m.
Arguments settles_as {Srv A} m m'.

(** ** The rest of the class, and notions for the facts below *)

(** [get user] *)
Definition user (s : session) : value := _user s.

(** [get wallet]: [this._user!.wallet]; the [!] is erased at run time. *)
Definition wallet (s : session) : exn + value := get_prop (_user s) "wallet".

(** [buf.toString('hex')]: two lowercase hexadecimal digits per byte. *)
Definition hex_lower (n : nat) : ascii :=
  if (n <? 10)%nat then ascii_of_nat (48 + n) else ascii_of_nat (87 + n).

Fixpoint toString_hex (bytes : list Byte.byte) : string :=
  match bytes with
  | [] => EmptyString
  | b :: bytes' =>
      String (hex_lower (Byte.to_nat b / 16))
        (String (hex_lower (Byte.to_nat b mod 16)) (toString_hex bytes'))
  end.

(** [getRoomId()], over the source of randomness: [randomBytes n] is what
    [crypto.randomBytes(n)] yields on this call. *)
Definition getRoomId (randomBytes : nat -> list Byte.byte) : string :=
  toString_hex (randomBytes 20).

(** The digits [toString('hex')] produces. *)
Definition is_lower_hex (a : ascii) : bool :=
  let n := nat_of_ascii a in
  (((48 <=? n) && (n <=? 57)) || ((97 <=? n) && (n <=? 102)))%nat.

Fixpoint string_forall (p : ascii -> bool) (s : string) : bool :=
  match s with
  | EmptyString => true
  | String a s' => p a && string_forall p s'
  end.

(** The request interceptor that has the last word: the first one in the
    order of registration that is neither ejected nor built on a falsy
    token. *)
Fixpoint first_active (hs : handlers) : option value :=
  match hs with
  | [] => None
  | Some accessToken :: hs' =>
      if truthy accessToken then Some accessToken else first_active hs'
  | None :: hs' => first_active hs'
  end.

(** Every slot of the request interceptors has its [logout] handler, the
    one [useCredentials] registers. *)
Definition well_subscribed (s : session) : Prop :=
  forall id, id < length (request_handlers s) ->
             In (Emitter.logout, EjectInterceptor id) (subscriptions (bus s)).

(** A property of the session that a computation does not break. *)
Definition preserves {Srv A : Type} (P : session -> Prop) (m : M Srv A) : Prop :=
  forall w, P (sess w) ->
            match m w with
            | Returned _ w' | Thrown _ w' => P (sess w')
            | OutOfFuel => True
            end.

(** The listener run on the messages of a list, one after the other. *)
Definition after_messages (events : list message_event) (i : invocation) : invocation :=
  fold_left (fun i' event => on_message event i') events i.

Definition trusted (base : string) (event : message_event) : bool :=
  String.eqb (origin event) base.

Definition trusted_close (base : string) (event : message_event) : bool :=
  String.eqb (origin event) base && strict_eq_str (payload event) "close".

(** A protected path that answers 401, and a refresh endpoint that
    answers 401 before it answers 500. *)
Definition refresh_unauthorized_then_refused : script :=
  [("/api/tokens", [Reply 401 VNull]);
   ("/api/auth/refresh", [Reply 401 VNull; Reply 500 VNull])].

(** A service that answers 401 whatever it is asked. *)
Definition revoked (st : unit) (c : config) : unit * outcome := (st, Reply 401 VNull).

(** The bytes a serialized name or value is made of. *)
Definition is_form_safe (a : ascii) : bool :=
  unreserved a || Ascii.eqb a "+" || Ascii.eqb a "%".

(** The bytes a serialized query is made of. *)
Definition is_query_byte (a : ascii) : bool :=
  is_form_safe a || Ascii.eqb a "&" || Ascii.eqb a "=".

(** More scripted services and inputs. *)
Definition login_refused : script := [("/api/auth/discord", [Reply 403 VNull])].

(** A login answered 200 with a body that lacks the refresh credential. *)
Definition malformed_login : script :=
  [("/api/auth/discord", [Reply 200 (VObj [("access", token_record "A")])])].

Definition logout_then_login : script :=
  [("/api/auth/logout", [Reply 200 VNull]);
   ("/api/auth/discord", [Reply 200 (auth_tokens "new" "R2")])].

Definition some_bytes (n : nat) : list Byte.byte := repeat Byte.xa7 n.

(** A message of another origin asking to close, then one of the trusted
    origin that does not. *)
Definition some_messages : list message_event :=
  [mkMessage "https://evil.example" (VStr "close");
   mkMessage "https://wallet.example" (VStr "done")].

(** ** Facts about the client *)

Section ClientFacts.

Variable Srv : Type.
Variable serve : Srv -> config -> Srv * outcome.

Ltac run_step :=
  unfold bind, try_catch, ret, throw, modify, this, lift in *.

(** *** What no request ever touches *)

Lemma frame_refl (w : world Srv) : frame w w.
Proof.
  unfold frame. repeat split; try reflexivity; exists []; now rewrite app_nil_r.
Qed.

Lemma frame_trans (w1 w2 w3 : world Srv) :
  frame w1 w2 -> frame w2 w3 -> frame w1 w3.
Proof.
  intros (Ht & Hh & Hr & Hb & He & Hd) (Ht' & Hh' & Hr' & Hb' & He' & Hd').
  destruct Ht as [l Ht], Ht' as [l' Ht'], Hh as [hs Hh], Hh' as [hs' Hh'].
  unfold frame. repeat split; try congruence.
  - exists (l ++ l'). rewrite Ht', Ht. now rewrite app_assoc.
  - exists (hs ++ hs'). rewrite Hh', Hh. now rewrite app_assoc.
Qed.

Lemma in_frame_ret {A : Type} (a : A) : in_frame (ret Srv a).
Proof. intro w. apply frame_refl. Qed.

Lemma in_frame_throw {A : Type} (e : exn) : in_frame (@throw Srv A e).
Proof. intro w. apply frame_refl. Qed.

Lemma in_frame_lift {A : Type} (x : exn + A) : in_frame (lift Srv x).
Proof. destruct x; intro w; apply frame_refl. Qed.

Lemma in_frame_this : in_frame (this Srv).
Proof. intro w. apply frame_refl. Qed.

Lemma in_frame_bind {A B : Type} (m : M Srv A) (k : A -> M Srv B) :
  in_frame m -> (forall a, in_frame (k a)) -> in_frame (bind Srv m k).
Proof.
  intros Hm Hk w. unfold bind. specialize (Hm w).
  destruct (m w) as [a w1|e w1|]; trivial.
  specialize (Hk a w1). destruct (k a w1); trivial; eapply frame_trans; eauto.
Qed.

Lemma in_frame_try_catch {A : Type} (m : M Srv A) (h : exn -> M Srv A) :
  in_frame m -> (forall e, in_frame (h e)) -> in_frame (try_catch Srv m h).
Proof.
  intros Hm Hh w. unfold try_catch. specialize (Hm w).
  destruct (m w) as [a w1|e w1|]; trivial.
  specialize (Hh e w1). destruct (h e w1); trivial; eapply frame_trans; eauto.
Qed.

Lemma in_frame_modify (f : session -> session) :
  (forall s,
      (exists hs, request_handlers (f s) = request_handlers s ++ hs) /\
      userRefreshToken (f s) = userRefreshToken s /\
      _baseURL (f s) = _baseURL s /\
      emitted (bus (f s)) = emitted (bus s) /\
      delivered (bus (f s)) = delivered (bus s)) ->
  in_frame (modify Srv f).
Proof.
  intros Hf w. unfold modify, frame. simpl.
  split; [exists []; now rewrite app_nil_r | apply Hf].
Qed.

Lemma in_frame_set_user v : in_frame (modify Srv (set_user v)).
Proof.
  apply in_frame_modify. intro s. simpl.
  repeat split; try reflexivity. exists []. now rewrite app_nil_r.
Qed.

Lemma in_frame_console_error e : in_frame (modify Srv (console_error e)).
Proof.
  apply in_frame_modify. intro s. simpl.
  repeat split; try reflexivity. exists []. now rewrite app_nil_r.
Qed.

Lemma in_frame_useCredentials v : in_frame (modify Srv (useCredentials v)).
Proof.
  apply in_frame_modify. intro s. unfold useCredentials, use. simpl.
  repeat split; try reflexivity. eexists. reflexivity.
Qed.

Lemma in_frame_dispatch c : in_frame (dispatch Srv serve c).
Proof.
  intro w. unfold dispatch. destruct (serve (srv w) c) as [srv' out].
  assert (frame w (mkWorld (sess w) srv' (traffic w ++ [(c, out)]))) as H.
  { unfold frame. simpl. repeat split; try reflexivity.
    - eexists. reflexivity.
    - exists []. now rewrite app_nil_r. }
  destruct out as [status body|]; [destruct (validateStatus status)|]; exact H.
Qed.

Section OverRequest.

Variable req : config -> M Srv settled.
Hypothesis req_in_frame : forall c, in_frame (req c).

Lemma in_frame_fetchUser_body : in_frame (fetchUser_body Srv req).
Proof.
  unfold fetchUser_body, get.
  apply in_frame_bind; [apply req_in_frame|]. intro x.
  apply in_frame_bind; [apply in_frame_set_user|]. intros _. apply in_frame_ret.
Qed.

Lemma in_frame_refreshToken_body : in_frame (refreshToken_body Srv req).
Proof.
  unfold refreshToken_body, post.
  apply in_frame_try_catch; [|intro; apply in_frame_throw].
  apply in_frame_bind; [apply in_frame_this|]. intro s.
  destruct (negb (truthy (userRefreshToken s))); [apply in_frame_throw|].
  apply in_frame_bind; [apply req_in_frame|]. intro x.
  apply in_frame_bind; [apply in_frame_lift|]. intro t.
  apply in_frame_bind; [apply in_frame_useCredentials|]. intros _.
  apply in_frame_bind; [apply in_frame_fetchUser_body|]. intros _.
  apply in_frame_ret.
Qed.

Lemma in_frame_response_rejected error : in_frame (response_rejected Srv req error).
Proof.
  unfold response_rejected.
  apply in_frame_bind; [apply in_frame_this|]. intro s.
  destruct (is_401 error && truthy (userRefreshToken s)); [|apply in_frame_ret].
  apply in_frame_try_catch.
  - apply in_frame_bind; [apply in_frame_refreshToken_body|]. intros _. apply req_in_frame.
  - intro e. apply in_frame_bind; [apply in_frame_console_error|]. intros _.
    apply in_frame_ret.
Qed.

End OverRequest.

Lemma in_frame_request fuel : forall c, in_frame (request serve fuel c).
Proof.
  induction fuel as [|fuel IH]; intro c.
  - intro w. exact I.
  - simpl. apply in_frame_bind; [apply in_frame_this|]. intro s.
    apply in_frame_bind; [apply in_frame_dispatch|]. intros [r|error].
    + apply in_frame_ret.
    + apply in_frame_response_rejected. exact IH.
Qed.


(** *** More fuel changes nothing once a call settles *)

Lemma settles_as_refl {A : Type} (m : M Srv A) : settles_as m m.
Proof. intros w _. reflexivity. Qed.

Lemma settles_as_bind {A B : Type} (m m' : M Srv A) (k k' : A -> M Srv B) :
  settles_as m m' -> (forall a, settles_as (k a) (k' a)) ->
  settles_as (bind Srv m k) (bind Srv m' k').
Proof.
  intros Hm Hk w. unfold bind. intro H.
  rewrite Hm by (intro E; now rewrite E in H).
  destruct (m w) as [a w1|e w1|]; try reflexivity. now apply Hk.
Qed.

Lemma settles_as_try_catch {A : Type} (m m' : M Srv A) (h h' : exn -> M Srv A) :
  settles_as m m' -> (forall e, settles_as (h e) (h' e)) ->
  settles_as (try_catch Srv m h) (try_catch Srv m' h').
Proof.
  intros Hm Hh w. unfold try_catch. intro H.
  rewrite Hm by (intro E; now rewrite E in H).
  destruct (m w) as [a w1|e w1|]; try reflexivity. now apply Hh.
Qed.

Section TwoRequests.

Variables req req' : config -> M Srv settled.
Hypothesis req_settles_as : forall c, settles_as (req c) (req' c).

Lemma settles_as_fetchUser_body :
  settles_as (fetchUser_body Srv req) (fetchUser_body Srv req').
Proof.
  unfold fetchUser_body, get.
  apply settles_as_bind; [apply req_settles_as|]. intro x. apply settles_as_refl.
Qed.

Lemma settles_as_refreshToken_body :
  settles_as (refreshToken_body Srv req) (refreshToken_body Srv req').
Proof.
  unfold refreshToken_body, post.
  apply settles_as_try_catch; [|intro; apply settles_as_refl].
  apply settles_as_bind; [apply settles_as_refl|]. intro s.
  destruct (negb (truthy (userRefreshToken s))); [apply settles_as_refl|].
  apply settles_as_bind; [apply req_settles_as|]. intro x.
  apply settles_as_bind; [apply settles_as_refl|]. intro t.
  apply settles_as_bind; [apply settles_as_refl|]. intros _.
  apply settles_as_bind; [apply settles_as_fetchUser_body|]. intros _.
  apply settles_as_refl.
Qed.

Lemma settles_as_response_rejected error :
  settles_as (response_rejected Srv req error) (response_rejected Srv req' error).
Proof.
  unfold response_rejected.
  apply settles_as_bind; [apply settles_as_refl|]. intro s.
  destruct (is_401 error && truthy (userRefreshToken s)); [|apply settles_as_refl].
  apply settles_as_try_catch; [|intro; apply settles_as_refl].
  apply settles_as_bind; [apply settles_as_refreshToken_body|]. intros _.
  apply req_settles_as.
Qed.

Lemma settles_as_authWithDiscord_body credentials :
  settles_as (authWithDiscord_body Srv req credentials)
             (authWithDiscord_body Srv req' credentials).
Proof.
  unfold authWithDiscord_body, post.
  apply settles_as_bind; [apply req_settles_as|]. intro x. apply settles_as_refl.
Qed.

Lemma settles_as_logout_body :
  settles_as (logout_body Srv req) (logout_body Srv req').
Proof.
  unfold logout_body, post.
  apply settles_as_try_catch; [|intro; apply settles_as_refl].
  apply settles_as_bind; [apply req_settles_as|]. intro x. apply settles_as_refl.
Qed.

End TwoRequests.

Lemma request_fuel_step fuel :
  forall c, settles_as (request serve fuel c) (request serve (S fuel) c).
Proof.
  induction fuel as [|fuel IH]; intro c.
  - intros w H. now contradiction H.
  - change (request serve (S (S fuel)) c)
      with (bind Srv (this Srv) (fun s =>
              bind Srv (dispatch Srv serve
                          (run_request_interceptors (request_handlers s) c))
                (fun r => match r with
                          | inl response => ret Srv (IsResponse response)
                          | inr error =>
                              response_rejected Srv (request serve (S fuel)) error
                          end))).
    change (request serve (S fuel) c)
      with (bind Srv (this Srv) (fun s =>
              bind Srv (dispatch Srv serve
                          (run_request_interceptors (request_handlers s) c))
                (fun r => match r with
                          | inl response => ret Srv (IsResponse response)
                          | inr error =>
                              response_rejected Srv (request serve fuel) error
                          end))).
    apply settles_as_bind; [apply settles_as_refl|]. intro s.
    apply settles_as_bind; [apply settles_as_refl|]. intros [r|error].
    + apply settles_as_refl.
    + apply settles_as_response_rejected. exact IH.
Qed.

Lemma request_fuel_mono fuel fuel' c :
  fuel <= fuel' -> settles_as (request serve fuel c) (request serve fuel' c).
Proof.
  induction 1 as [|fuel' _ IH].
  - apply settles_as_refl.
  - intros w H. rewrite <- (IH w H).
    apply request_fuel_step. now rewrite (IH w H).
Qed.

(** *** The client settles every request normally *)

Lemma refreshToken_fuel_mono fuel fuel' :
  fuel <= fuel' -> settles_as (refreshToken serve fuel) (refreshToken serve fuel').
Proof.
  intro H. apply settles_as_refreshToken_body. intro c. now apply request_fuel_mono.
Qed.

Lemma fetchUser_fuel_mono fuel fuel' :
  fuel <= fuel' -> settles_as (fetchUser serve fuel) (fetchUser serve fuel').
Proof.
  intro H. apply settles_as_fetchUser_body. intro c. now apply request_fuel_mono.
Qed.

Lemma authWithDiscord_fuel_mono fuel fuel' credentials :
  fuel <= fuel' ->
  settles_as (authWithDiscord serve fuel credentials)
             (authWithDiscord serve fuel' credentials).
Proof.
  intro H. apply settles_as_authWithDiscord_body. intro c. now apply request_fuel_mono.
Qed.

Lemma logout_fuel_mono fuel fuel' :
  fuel <= fuel' -> settles_as (logout serve fuel) (logout serve fuel').
Proof.
  intro H. apply settles_as_logout_body. intro c. now apply request_fuel_mono.
Qed.

Lemma dispatch_returns (c : config) (w : world Srv) :
  exists r,
    dispatch Srv serve c w =
      Returned r (mkWorld (sess w) (fst (serve (srv w) c))
                          (traffic w ++ [(c, snd (serve (srv w) c))])).
Proof.
  unfold dispatch. destruct (serve (srv w) c) as [srv' out]. simpl.
  destruct out as [status body|].
  - destruct (validateStatus status); eauto.
  - eauto.
Qed.

Lemma response_rejected_never_throws (req : config -> M Srv settled) error w e w' :
  response_rejected Srv req error w <> Thrown e w'.
Proof.
  unfold response_rejected. run_step.
  destruct (is_401 error && truthy (userRefreshToken (sess w))); [|discriminate].
  destruct (refreshToken_body Srv req w) as [v w1|e1 w1|]; try discriminate.
  destruct (req (e_config error) w1); discriminate.
Qed.

Lemma request_never_throws fuel c w e w' :
  request serve fuel c w <> Thrown e w'.
Proof.
  destruct fuel as [|fuel]; simpl; [discriminate|].
  run_step.
  destruct (dispatch_returns (run_request_interceptors (request_handlers (sess w)) c) w)
    as [r ->].
  destruct r as [r|error]; [discriminate|].
  apply response_rejected_never_throws.
Qed.

(** *** One request, step by step *)

Lemma request_S fuel c w :
  request serve (S fuel) c w =
    let c1 := run_request_interceptors (request_handlers (sess w)) c in
    let w1 := mkWorld (sess w) (fst (serve (srv w) c1))
                      (traffic w ++ [(c1, snd (serve (srv w) c1))]) in
    match snd (serve (srv w) c1) with
    | Reply status body =>
        if validateStatus status
        then Returned (IsResponse (mkResponse status body c1)) w1
        else response_rejected Srv (request serve fuel)
               (mkError c1 (Some (mkResponse status body c1))) w1
    | NoReply => response_rejected Srv (request serve fuel) (mkError c1 None) w1
    end.
Proof.
  simpl. unfold bind, this, dispatch.
  destruct (serve (srv w) (run_request_interceptors (request_handlers (sess w)) c))
    as [srv' [status body|]]; simpl; [destruct (validateStatus status)|]; reflexivity.
Qed.

Lemma request_accepted fuel c (w : world Srv) srv1 status body :
  serve (srv w) (run_request_interceptors (request_handlers (sess w)) c)
    = (srv1, Reply status body) ->
  validateStatus status = true ->
  request serve (S fuel) c w =
    Returned (IsResponse (mkResponse status body
                            (run_request_interceptors (request_handlers (sess w)) c)))
             (mkWorld (sess w) srv1
                (traffic w ++ [(run_request_interceptors (request_handlers (sess w)) c,
                                Reply status body)])).
Proof.
  intros Hserve Hvalid. rewrite request_S. cbv zeta.
  rewrite Hserve. cbn [fst snd]. now rewrite Hvalid.
Qed.

Lemma response_rejected_401 req c1 body w :
  truthy (userRefreshToken (sess w)) = true ->
  response_rejected Srv req (mkError c1 (Some (mkResponse 401 body c1))) w =
    match refreshToken_body Srv req w with
    | Returned _ w2 =>
        match req c1 w2 with
        | Returned x w3 => Returned x w3
        | Thrown err w3 =>
            Returned (IsError (mkError c1 (Some (mkResponse 401 body c1))))
                     (mkWorld (console_error err (sess w3)) (srv w3) (traffic w3))
        | OutOfFuel => OutOfFuel
        end
    | Thrown err w2 =>
        Returned (IsError (mkError c1 (Some (mkResponse 401 body c1))))
                 (mkWorld (console_error err (sess w2)) (srv w2) (traffic w2))
    | OutOfFuel => OutOfFuel
    end.
Proof.
  intro Htok. unfold response_rejected, bind, this, try_catch, is_401. simpl.
  rewrite Htok. simpl.
  destruct (refreshToken_body Srv req w) as [v w2|err w2|]; reflexivity.
Qed.

(** A failure that calls for no retry is one exchange. *)
Lemma request_failure_unretried fuel c (w : world Srv) srv1 out :
  serve (srv w) (run_request_interceptors (request_handlers (sess w)) c) = (srv1, out) ->
  match out with
  | Reply status _ =>
      validateStatus status = false /\
      (status <> 401%Z \/ truthy (userRefreshToken (sess w)) = false)
  | NoReply => True
  end ->
  request serve (S fuel) c w =
    Returned
      (IsError (mkError (run_request_interceptors (request_handlers (sess w)) c)
                  match out with
                  | Reply status body =>
                      Some (mkResponse status body
                              (run_request_interceptors (request_handlers (sess w)) c))
                  | NoReply => None
                  end))
      (mkWorld (sess w) srv1
         (traffic w ++ [(run_request_interceptors (request_handlers (sess w)) c, out)])).
Proof.
  intros Hserve Hout. rewrite request_S. cbv zeta. rewrite Hserve. cbn [fst snd].
  destruct out as [status body|]; [|reflexivity].
  destruct Hout as [-> Hwhy].
  unfold response_rejected, bind, this, ret, is_401. cbn [sess e_response r_status].
  destruct Hwhy as [Hne|Htok].
  - apply Z.eqb_neq in Hne. now rewrite Hne.
  - rewrite Htok. now rewrite andb_false_r.
Qed.

(** C3, as the code has it: when a request is answered 401 while a
    refresh credential is stored and the [refreshToken] call the
    interceptor starts throws, the request settles normally (it is
    [Returned], not [Thrown]) with the error object of that 401, config
    and response as they were; the failure of the refresh is written to
    the console, and nothing is sent after the refresh.  The call throws,
    in particular, when the refresh request gets no reply, or a reply
    outside 2xx that is not a 401: then the request is two exchanges.  (A
    refresh request answered 401 is intercepted like any request and
    starts a refresh of its own first.) *)
Theorem failed_refresh_returns_the_401 fuel c (w : world Srv) srv1 body :
  let c1 := run_request_interceptors (request_handlers (sess w)) c in
  let w1 := mkWorld (sess w) srv1 (traffic w ++ [(c1, Reply 401 body)]) in
  let original := IsError (mkError c1 (Some (mkResponse 401 body c1))) in
  serve (srv w) c1 = (srv1, Reply 401 body) ->
  truthy (userRefreshToken (sess w)) = true ->
  (forall err w2,
      refreshToken serve fuel w1 = Thrown err w2 ->
      request serve (S fuel) c w =
        Returned original
                 (mkWorld (console_error err (sess w2)) (srv w2) (traffic w2))) /\
  (forall srv2 out,
      let cr := run_request_interceptors (request_handlers (sess w))
                  (mkConfig POST "/api/auth/refresh"
                     [("Authorization",
                       ("Bearer " ++ template (userRefreshToken (sess w)))%string)]
                     VUndefined) in
      serve srv1 cr = (srv2, out) ->
      match out with
      | Reply status _ => validateStatus status = false /\ status <> 401%Z
      | NoReply => True
      end ->
      request serve (S (S fuel)) c w =
        Returned original
                 (mkWorld (console_error (JsError "Refresh token failed") (sess w)) srv2
                          ((traffic w ++ [(c1, Reply 401 body)]) ++ [(cr, out)]))).
Proof.
  intros c1 w1 original Hserve Htok.
  assert (forall fuel' err w2,
             refreshToken serve fuel' w1 = Thrown err w2 ->
             request serve (S fuel') c w =
               Returned original
                        (mkWorld (console_error err (sess w2)) (srv w2) (traffic w2)))
    as Hthrown.
  { intros fuel' err w2 Hrefresh.
    rewrite request_S. cbv zeta. fold c1. rewrite Hserve. cbn [fst snd].
    change (validateStatus 401) with false. cbv iota.
    rewrite response_rejected_401 by exact Htok.
    unfold refreshToken in Hrefresh. fold w1. now rewrite Hrefresh. }
  split; [apply Hthrown|].
  intros srv2 out cr Hrefresh Hout.
  apply (Hthrown (S fuel) (JsError "Refresh token failed")
           (mkWorld (sess w) srv2 (traffic w1 ++ [(cr, out)]))).
  remember (S fuel) as n eqn:Hn.
  unfold refreshToken, refreshToken_body, post, try_catch, bind, this.
  cbn [sess w1]. rewrite Htok. cbn [negb]. subst n.
  rewrite (request_failure_unretried fuel _ w1 srv2 out).
  - reflexivity.
  - exact Hrefresh.
  - destruct out as [status b|]; [|exact I].
    destruct Hout as [Hv Hne]. split; [exact Hv|now left].
Qed.

(** C2, as the code has it: a 401 answer while a refresh credential is
    stored starts one refresh, and when that refresh succeeds the request
    is issued once more through the same client, so that the whole request
    settles as that re-issued request does.  Nothing marks the re-issued
    request: it is intercepted like any other, and when the service
    answers it with a status other than 401 the cycle ends there, with
    this one exchange after the refresh. *)
Theorem a_401_starts_one_refresh_then_reissues fuel c w srv1 body v w2 :
  let c1 := run_request_interceptors (request_handlers (sess w)) c in
  serve (srv w) c1 = (srv1, Reply 401 body) ->
  truthy (userRefreshToken (sess w)) = true ->
  refreshToken serve (S fuel)
    (mkWorld (sess w) srv1 (traffic w ++ [(c1, Reply 401 body)])) = Returned v w2 ->
  request serve (S (S fuel)) c w = request serve (S fuel) c1 w2 /\
  (forall status' body',
      let c2 := run_request_interceptors (request_handlers (sess w2)) c1 in
      snd (serve (srv w2) c2) = Reply status' body' ->
      status' <> 401%Z ->
      exists x,
        request serve (S (S fuel)) c w =
          Returned x (mkWorld (sess w2) (fst (serve (srv w2) c2))
                              (traffic w2 ++ [(c2, Reply status' body')]))).
Proof.
  intros c1 Hserve Htok Hrefresh.
  assert (request serve (S (S fuel)) c w = request serve (S fuel) c1 w2) as Hcycle.
  { rewrite request_S. cbv zeta. fold c1. rewrite Hserve. cbn [fst snd].
    change (validateStatus 401) with false. cbv iota.
    rewrite response_rejected_401 by exact Htok.
    unfold refreshToken in Hrefresh. rewrite Hrefresh.
    pose proof (request_never_throws (S fuel) c1 w2) as Hnt.
    destruct (request serve (S fuel) c1 w2) as [x w3|e w3|]; try reflexivity.
    now contradiction (Hnt e w3). }
  split; [exact Hcycle|].
  intros status' body' c2 Hreply Hstatus.
  rewrite Hcycle.
  rewrite request_S. cbv zeta. fold c2. rewrite Hreply.
  destruct (validateStatus status'); [eexists; reflexivity|].
  unfold response_rejected, bind, this, is_401. cbn [e_response r_status].
  apply Z.eqb_neq in Hstatus. rewrite Hstatus. eexists. reflexivity.
Qed.

(** C5, as the code has it: without a refresh credential [refreshToken]
    throws, the error it throws is the one every failure of the method
    ends in ("Refresh token failed": the error raised for the missing
    credential is caught by the method's own handler), no request is sent
    and nothing stored changes. *)
Theorem refreshToken_without_credential fuel (w : world Srv) :
  truthy (userRefreshToken (sess w)) = false ->
  refreshToken serve fuel w = Thrown (JsError "Refresh token failed") w.
Proof.
  intro Htok. unfold refreshToken, refreshToken_body, try_catch, bind, this, throw.
  now rewrite Htok.
Qed.

(** *** Where a response comes from *)

Lemma createAccessTokenInterceptor_keeps accessToken c :
  url (createAccessTokenInterceptor accessToken c) = url c /\
  method (createAccessTokenInterceptor accessToken c) = method c /\
  data (createAccessTokenInterceptor accessToken c) = data c.
Proof.
  unfold createAccessTokenInterceptor. destruct (truthy accessToken); simpl; auto.
Qed.

Lemma run_request_interceptors_keeps hs c :
  url (run_request_interceptors hs c) = url c /\
  method (run_request_interceptors hs c) = method c /\
  data (run_request_interceptors hs c) = data c.
Proof.
  induction hs as [|[t|] hs IH]; simpl; auto.
  destruct (createAccessTokenInterceptor_keeps t (run_request_interceptors hs c))
    as (Hu & Hm & Hd).
  destruct IH as (Hu' & Hm' & Hd'). repeat split; congruence.
Qed.

Lemma request_sends_first fuel c w x w' :
  request serve fuel c w = Returned x w' ->
  exists c1 o rest,
    traffic w' = traffic w ++ (c1, o) :: rest /\
    url c1 = url c /\ method c1 = method c.
Proof.
  destruct fuel as [|fuel]; [discriminate|].
  rewrite request_S. cbv zeta.
  set (c1 := run_request_interceptors (request_handlers (sess w)) c).
  set (w1 := mkWorld (sess w) (fst (serve (srv w) c1))
                     (traffic w ++ [(c1, snd (serve (srv w) c1))])).
  intro H.
  assert (exists l, traffic w' = traffic w1 ++ l) as [l Hl].
  { destruct (snd (serve (srv w) c1)) as [status body|] eqn:Hout.
    - destruct (validateStatus status).
      + inversion H; subst. exists []. now rewrite app_nil_r.
      + pose proof (in_frame_response_rejected (request serve fuel)
                      (in_frame_request fuel)
                      (mkError c1 (Some (mkResponse status body c1))) w1) as F.
        rewrite H in F. apply F.
    - pose proof (in_frame_response_rejected (request serve fuel)
                    (in_frame_request fuel) (mkError c1 None) w1) as F.
      rewrite H in F. apply F. }
  exists c1, (snd (serve (srv w) c1)), l.
  destruct (run_request_interceptors_keeps (request_handlers (sess w)) c) as (Hu & Hm & _).
  repeat split; trivial.
  rewrite Hl. subst w1. simpl. now rewrite <- app_assoc.
Qed.

Lemma request_response_origin fuel :
  forall c w r w',
    request serve fuel c w = Returned (IsResponse r) w' ->
    url (r_config r) = url c /\
    method (r_config r) = method c /\
    validateStatus (r_status r) = true /\
    In (r_config r, Reply (r_status r) (r_data r)) (traffic w').
Proof.
  induction fuel as [|fuel IH]; intros c w r w'; [discriminate|].
  rewrite request_S. cbv zeta.
  set (c1 := run_request_interceptors (request_handlers (sess w)) c).
  destruct (run_request_interceptors_keeps (request_handlers (sess w)) c) as (Hu & Hm & _).
  fold c1 in Hu, Hm.
  set (w1 := mkWorld (sess w) (fst (serve (srv w) c1))
                     (traffic w ++ [(c1, snd (serve (srv w) c1))])).
  assert (forall error,
             e_config error = c1 ->
             response_rejected Srv (request serve fuel) error w1
               = Returned (IsResponse r) w' ->
             url (r_config r) = url c /\
             method (r_config r) = method c /\
             validateStatus (r_status r) = true /\
             In (r_config r, Reply (r_status r) (r_data r)) (traffic w')) as Hrej.
  { intros error Hcfg. unfold response_rejected, bind, this, try_catch, ret, modify.
    destruct (is_401 error && truthy (userRefreshToken (sess w1))); [|discriminate].
    destruct (refreshToken_body Srv (request serve fuel) w1) as [v w2|e w2|];
      try discriminate.
    rewrite Hcfg.
    destruct (request serve fuel c1 w2) as [x w3|e w3|] eqn:Hretry; try discriminate.
    intro H. inversion H; subst x w3.
    destruct (IH _ _ _ _ Hretry) as (Hu' & Hm' & Hv & Hin).
    repeat split; trivial; congruence. }
  destruct (snd (serve (srv w) c1)) as [status body|] eqn:Hout.
  - destruct (validateStatus status) eqn:Hvalid.
    + intro H. inversion H; subst. simpl. repeat split; trivial.
      apply in_or_app. right. left. reflexivity.
    + apply Hrej. reflexivity.
  - apply Hrej. reflexivity.
Qed.

(** C4: when [refreshToken] returns, (1) the refresh request settled with
    a real response, answered by the refresh endpoint, and the value
    returned is the body of that response; (2) after that exchange a
    GET of the identity endpoint was sent; (3) the stored user is what
    that fetch settled with ([data] of it), stored before the call
    returned. *)
Theorem refreshToken_refetches_the_user fuel (w : world Srv) rec w' :
  refreshToken serve fuel w = Returned rec w' ->
  truthy (userRefreshToken (sess w)) = true /\
  exists r w1 accessToken y w2 cu ou rest,
    request serve fuel
      (mkConfig POST "/api/auth/refresh"
         [("Authorization", ("Bearer " ++ template (userRefreshToken (sess w)))%string)]
         VUndefined) w
      = Returned (IsResponse r) w1 /\
    url (r_config r) = "/api/auth/refresh" /\
    validateStatus (r_status r) = true /\
    In (r_config r, Reply (r_status r) (r_data r)) (traffic w1) /\
    rec = r_data r /\
    get_prop (r_data r) "token" = inr accessToken /\
    request serve fuel (mkConfig GET "/api/users/me" [] VUndefined)
      (mkWorld (useCredentials accessToken (sess w1)) (srv w1) (traffic w1))
      = Returned y w2 /\
    traffic w2 = traffic w1 ++ (cu, ou) :: rest /\
    url cu = "/api/users/me" /\ method cu = GET /\
    w' = mkWorld (set_user (data_of y) (sess w2)) (srv w2) (traffic w2) /\
    _user (sess w') = data_of y.
Proof.
  unfold refreshToken, refreshToken_body, fetchUser_body, post, get.
  unfold try_catch, bind, this, throw, ret, modify.
  destruct (truthy (userRefreshToken (sess w))); [|discriminate].
  cbn [negb]. intro Hrun. split; [reflexivity|]. revert Hrun.
  match goal with |- context [request serve fuel ?c w] => set (c0 := c) end.
  destruct (request serve fuel c0 w) as [x w1|e w1|] eqn:Hpost; try discriminate.
  destruct (lift Srv (get_prop (data_of x) "token") w1) as [t w1'|e w1'|] eqn:Htok;
    try discriminate.
  assert (w1' = w1 /\ exists r, x = IsResponse r /\ get_prop (r_data r) "token" = inr t)
    as [-> [r [-> Hprop]]].
  { destruct x as [r|err]; simpl in Htok.
    - unfold lift in Htok.
      destruct (get_prop (r_data r) "token") eqn:E; inversion Htok; subst; eauto.
    - discriminate. }
  match goal with |- context [request serve fuel ?c ?w0] =>
    lazymatch c with
    | mkConfig GET _ _ _ => set (cg := c); set (wg := w0)
    end
  end.
  destruct (request serve fuel cg wg) as [y w2|e w2|] eqn:Hget; try discriminate.
  intro H. inversion H; subst rec w'. clear H.
  destruct (request_response_origin _ _ _ _ _ Hpost) as (Hu & _ & Hvalid & Hin).
  destruct (request_sends_first _ _ _ _ _ Hget) as (cu & ou & rest & Ht & Hcu & Hcm).
  exists r, w1, t, y, w2, cu, ou, rest.
  repeat split; trivial.
Qed.

(** *** What the methods built on the client cannot do *)

Lemma fetchUser_never_throws fuel (w : world Srv) e w' :
  fetchUser serve fuel w <> Thrown e w'.
Proof.
  unfold fetchUser, fetchUser_body, get, bind, modify, ret.
  pose proof (request_never_throws fuel (mkConfig GET "/api/users/me" [] VUndefined) w)
    as Hnt.
  destruct (request serve fuel (mkConfig GET "/api/users/me" [] VUndefined) w)
    as [x w1|e1 w1|]; try discriminate.
  now contradiction (Hnt e1 w1).
Qed.

Lemma logout_never_throws fuel (w : world Srv) e w' :
  logout serve fuel w <> Thrown e w'.
Proof.
  unfold logout, logout_body, post, try_catch, bind, modify, throw.
  pose proof (request_never_throws fuel
                (mkConfig POST "/api/auth/logout" [] VUndefined) w) as Hnt.
  destruct (request serve fuel (mkConfig POST "/api/auth/logout" [] VUndefined) w)
    as [x w1|e1 w1|]; try discriminate.
  now contradiction (Hnt e1 w1).
Qed.

Lemma call_handlers_keep k payload hs : forall s,
  let s' := fold_left (call_handler k payload) hs s in
  _user s' = _user s /\
  userRefreshToken s' = userRefreshToken s /\
  emitted (bus s') = emitted (bus s).
Proof.
  induction hs as [|h hs IH]; intro s; simpl; [auto|].
  destruct (IH (call_handler k payload s h)) as (Hu & Hr & He).
  rewrite Hu, Hr, He. destruct h; simpl; auto.
Qed.

Lemma emit_effect k payload s :
  _user (emit k payload s) = _user s /\
  userRefreshToken (emit k payload s) = userRefreshToken s /\
  emitted (bus (emit k payload s)) = emitted (bus s) ++ [(k, payload)].
Proof.
  unfold emit.
  match goal with |- context [fold_left _ ?hs ?s1] =>
    destruct (call_handlers_keep k payload hs s1) as (Hu & Hr & He)
  end.
  cbv zeta in Hu, Hr, He. rewrite Hu, Hr, He. simpl. auto.
Qed.

(** Whenever [logout] settles it has cleared the session and published
    one [logout] event, whatever the service answered. *)
Lemma logout_settles_cleared fuel (w : world Srv) (w' : world Srv) :
  logout serve fuel w = Returned tt w' ->
  _user (sess w') = VUndefined /\
  userRefreshToken (sess w') = VUndefined /\
  isLoggedIn (sess w') = false /\
  emitted (bus (sess w')) = emitted (bus (sess w)) ++ [(Emitter.logout, VNull)].
Proof.
  unfold logout, logout_body, post, try_catch, bind, modify, throw.
  pose proof (in_frame_request fuel
                (mkConfig POST "/api/auth/logout" [] VUndefined) w) as F.
  destruct (request serve fuel (mkConfig POST "/api/auth/logout" [] VUndefined) w)
    as [x w1|e1 w1|]; try discriminate.
  intro H. inversion H; subst w'. clear H. cbn [sess].
  destruct F as (_ & _ & _ & _ & He & _).
  match goal with |- context [emit ?k ?pl ?s0] =>
    destruct (emit_effect k pl s0) as (Hu & Hr & Hem)
  end.
  unfold isLoggedIn. rewrite Hu, Hr, Hem. simpl. now rewrite He.
Qed.

(** [authWithDiscord] publishes nothing, however it settles. *)
Lemma authWithDiscord_publishes_nothing fuel credentials (w : world Srv) :
  match authWithDiscord serve fuel credentials w with
  | Returned _ w' | Thrown _ w' =>
      emitted (bus (sess w')) = emitted (bus (sess w)) /\
      delivered (bus (sess w')) = delivered (bus (sess w))
  | OutOfFuel => True
  end.
Proof.
  unfold authWithDiscord, authWithDiscord_body, post, bind, modify.
  pose proof (in_frame_request fuel
                (mkConfig POST "/api/auth/discord" [] credentials) w) as F.
  destruct (request serve fuel (mkConfig POST "/api/auth/discord" [] credentials) w)
    as [x w1|e1 w1|]; trivial;
    destruct F as (_ & _ & _ & _ & He & Hd); [|now split].
  unfold lift, throw, ret.
  repeat match goal with
         | |- context [get_prop ?v ?k] => destruct (get_prop v k); [now split|]
         end.
  simpl. now split.
Qed.

(** *** Which request interceptor has the last word *)

Lemma header_after_set name v hs :
  find (fun p => same_name name (fst p)) (headers_set name v hs) = Some
    (match find (fun p => same_name name (fst p)) hs with
     | Some p => fst p
     | None => name
     end, v).
Proof.
  induction hs as [|[n x] hs IH]; simpl.
  - unfold same_name. now rewrite String.eqb_refl.
  - destruct (same_name name n) eqn:E; simpl; rewrite E; [reflexivity|exact IH].
Qed.

(** The interceptor installed first runs last: as long as it is not
    ejected, its credential is the one every request carries. *)
Lemma oldest_interceptor_wins accessToken hs c :
  truthy accessToken = true ->
  header "Authorization" (run_request_interceptors (Some accessToken :: hs) c)
    = Some ("Bearer " ++ template accessToken)%string.
Proof.
  intro H. simpl. unfold createAccessTokenInterceptor. rewrite H.
  unfold header, set_header. cbn [headers]. now rewrite header_after_set.
Qed.

End ClientFacts.

(** *** A service that never relents *)

Lemma always_unauthorized_serves st hs c :
  always_unauthorized st (run_request_interceptors hs c) =
    if String.eqb (url c) "/api/auth/refresh" then (st, Reply 200 (token_record "B"))
    else if String.eqb (url c) "/api/users/me" then (st, Reply 200 a_user)
    else (st, Reply 401 VNull).
Proof.
  unfold always_unauthorized.
  destruct (run_request_interceptors_keeps hs c) as (-> & _). reflexivity.
Qed.

Lemma refresh_succeeds_when_served fuel (w : world unit) :
  truthy (userRefreshToken (sess w)) = true ->
  exists w', refreshToken always_unauthorized (S fuel) w = Returned (token_record "B") w'.
Proof.
  intro Htok. remember (S fuel) as n eqn:Hn.
  unfold refreshToken, refreshToken_body, fetchUser_body, post, get.
  unfold try_catch, bind, this, throw, ret, modify. rewrite Htok. cbn [negb].
  subst n. eexists.
  erewrite request_accepted;
    [| rewrite always_unauthorized_serves; reflexivity | reflexivity].
  cbn [data_of r_data token_record get_prop assoc String.eqb Ascii.eqb Bool.eqb lift].
  unfold ret, get.
  erewrite request_accepted;
    [| rewrite always_unauthorized_serves; reflexivity | reflexivity].
  reflexivity.
Qed.

(** The retries are not bounded: when the protected path answers 401 every
    time and the refresh works every time, a request does not settle,
    whatever the fuel. *)
Lemma persistent_401_never_settles fuel : forall c (w : world unit),
  url c = "/api/tokens" ->
  truthy (userRefreshToken (sess w)) = true ->
  request always_unauthorized fuel c w = OutOfFuel.
Proof.
  induction fuel as [|fuel IH]; intros c w Hurl Htok; [reflexivity|].
  rewrite request_S. cbv zeta.
  rewrite always_unauthorized_serves, Hurl.
  cbn [String.eqb Ascii.eqb Bool.eqb fst snd].
  change (validateStatus 401) with false. cbv iota.
  rewrite response_rejected_401 by exact Htok.
  match goal with |- context [refreshToken_body unit ?req ?w1] =>
    pose proof (in_frame_refreshToken_body unit req (in_frame_request unit _ fuel) w1) as F;
    destruct (refreshToken_body unit req w1) as [v w2|err w2|] eqn:Hrefresh
  end.
  - rewrite IH; [reflexivity| |].
    + destruct (run_request_interceptors_keeps (request_handlers (sess w)) c) as (-> & _).
      exact Hurl.
    + destruct F as (_ & _ & Hsame & _). rewrite Hsame. exact Htok.
  - exfalso. destruct fuel as [|fuel'].
    { unfold refreshToken_body, try_catch, bind, this, post in Hrefresh.
      cbn [sess request] in Hrefresh. rewrite Htok in Hrefresh. discriminate. }
    match type of Hrefresh with refreshToken_body unit _ ?w1 = _ =>
      destruct (refresh_succeeds_when_served fuel' w1 Htok) as [w' Hok]
    end.
    unfold refreshToken in Hok. rewrite Hok in Hrefresh. discriminate.
  - reflexivity.
Qed.

(** ** Facts about the path builder *)

Lemma unreserved_is_plain a :
  unreserved a = true ->
  Ascii.eqb a "%" = false /\ Ascii.eqb a "+" = false /\
  Ascii.eqb a "&" = false /\ Ascii.eqb a "=" = false.
Proof.
  destruct a as [[] [] [] [] [] [] [] []]; vm_compute; intro H;
    first [discriminate H | repeat split].
Qed.

Lemma hex_digits_decode a :
  let h := hex_digit (nat_of_ascii a / 16) in
  let l := hex_digit (nat_of_ascii a mod 16) in
  match hex_value h, hex_value l with
  | Some x, Some y => ascii_of_nat (16 * x + y) = a
  | _, _ => False
  end /\
  Ascii.eqb h "&" = false /\ Ascii.eqb h "=" = false /\
  Ascii.eqb l "&" = false /\ Ascii.eqb l "=" = false.
Proof.
  destruct a as [[] [] [] [] [] [] [] []]; vm_compute; repeat split.
Qed.

Lemma urldecode_urlencode s : urldecode (urlencode s) = s.
Proof.
  induction s as [|a s IH]; [reflexivity|].
  cbn [urlencode]. destruct (unreserved a) eqn:Hu.
  - destruct (unreserved_is_plain a Hu) as (Hp & Hplus & _).
    cbn [urldecode]. rewrite Hp, Hplus, IH. reflexivity.
  - destruct (Ascii.eqb a " ") eqn:Hsp.
    + apply Ascii.eqb_eq in Hsp. subst a. cbn [urldecode].
      change (Ascii.eqb "+" "%") with false. change (Ascii.eqb "+" "+") with true.
      cbv iota. now rewrite IH.
    + cbn [urldecode]. change (Ascii.eqb "%" "%") with true. cbv iota.
      destruct (hex_digits_decode a) as (Hd & _). cbv zeta in Hd.
      destruct (hex_value (hex_digit (nat_of_ascii a / 16))) as [x|]; [|contradiction].
      destruct (hex_value (hex_digit (nat_of_ascii a mod 16))) as [y|]; [|contradiction].
      now rewrite Hd, IH.
Qed.

Lemma urlencode_free_of_separators s :
  free_of "&" (urlencode s) = true /\ free_of "=" (urlencode s) = true.
Proof.
  induction s as [|a s [IHa IHe]]; [split; reflexivity|].
  cbn [urlencode]. destruct (unreserved a) eqn:Hu.
  - destruct (unreserved_is_plain a Hu) as (_ & _ & Ha & He).
    cbn [free_of]. rewrite Ha, He, IHa, IHe. split; reflexivity.
  - destruct (Ascii.eqb a " ").
    + cbn [free_of]. rewrite IHa, IHe. split; reflexivity.
    + destruct (hex_digits_decode a) as (_ & H1 & H2 & H3 & H4). cbv zeta in *.
      cbn [free_of]. rewrite H1, H2, H3, H4, IHa, IHe. split; reflexivity.
Qed.

Lemma free_of_app sep s t :
  free_of sep (s ++ t)%string = free_of sep s && free_of sep t.
Proof.
  induction s as [|a s IH]; simpl; [reflexivity|]. rewrite IH. now rewrite andb_assoc.
Qed.

Lemma split_first_at sep s t :
  free_of sep s = true -> split_first sep (s ++ String sep t)%string = (s, t).
Proof.
  induction s as [|a s IH]; simpl.
  - intros _. now rewrite Ascii.eqb_refl.
  - intro H. apply andb_true_iff in H as [Ha Hs].
    apply negb_true_iff in Ha. rewrite Ha, (IH Hs). reflexivity.
Qed.

Lemma split_on_free sep s :
  free_of sep s = true -> split_on sep s = [s].
Proof.
  induction s as [|a s IH]; simpl; [reflexivity|].
  intro H. apply andb_true_iff in H as [Ha Hs].
  apply negb_true_iff in Ha. rewrite Ha, (IH Hs). reflexivity.
Qed.

Lemma split_on_at sep s t :
  free_of sep s = true -> split_on sep (s ++ String sep t)%string = s :: split_on sep t.
Proof.
  induction s as [|a s IH]; simpl.
  - intros _. now rewrite Ascii.eqb_refl.
  - intro H. apply andb_true_iff in H as [Ha Hs].
    apply negb_true_iff in Ha. rewrite Ha, (IH Hs). reflexivity.
Qed.

Lemma pair_of_parses k v :
  free_of "&" (pair_of k v) = true /\
  String.eqb (pair_of k v) "" = false /\
  split_first "=" (pair_of k v) = (urlencode k, urlencode (string_of_value v)).
Proof.
  unfold pair_of.
  destruct (urlencode_free_of_separators k) as [Hka Hke].
  destruct (urlencode_free_of_separators (string_of_value v)) as [Hva _].
  repeat split.
  - rewrite free_of_app, Hka. simpl. exact Hva.
  - destruct (urlencode k); reflexivity.
  - change ("=" ++ urlencode (string_of_value v))%string
      with (String "=" (urlencode (string_of_value v))).
    now apply split_first_at.
Qed.

Lemma parse_query_toString o :
  parse_query (URLSearchParams_toString o) =
    map (fun p => (fst p, string_of_value (snd p))) o.
Proof.
  unfold parse_query.
  induction o as [|[k v] rest IH]; [reflexivity|].
  cbn [URLSearchParams_toString]. fold (pair_of k v).
  destruct (pair_of_parses k v) as (Hfree & Hne & Hsplit).
  destruct rest as [|p rest].
  - rewrite (split_on_free _ _ Hfree). cbn [filter]. rewrite Hne. cbn [negb map].
    rewrite Hsplit, !urldecode_urlencode. reflexivity.
  - change (pair_of k v ++ "&" ++ URLSearchParams_toString (p :: rest))%string
      with (pair_of k v ++ String "&" (URLSearchParams_toString (p :: rest)))%string.
    rewrite (split_on_at _ _ _ Hfree). cbn [filter]. rewrite Hne. cbn [negb map].
    rewrite Hsplit, !urldecode_urlencode, IH. reflexivity.
Qed.

(** *** Objects *)

Lemma obj_set_fresh k v o :
  ~ In k (map fst o) -> obj_set k v o = o ++ [(k, v)].
Proof.
  induction o as [|[k' v'] o IH]; simpl; [reflexivity|].
  intro H. destruct (String.eqb k k') eqn:E.
  - apply String.eqb_eq in E. subst. contradiction H. now left.
  - rewrite IH; [reflexivity|]. intro; apply H; now right.
Qed.

Lemma obj_set_keys k v o k' :
  In k' (map fst (obj_set k v o)) <-> k' = k \/ In k' (map fst o).
Proof.
  induction o as [|[k0 v0] o IH]; simpl.
  - intuition.
  - destruct (String.eqb k k0) eqn:E; simpl.
    + apply String.eqb_eq in E. subst. intuition.
    + rewrite IH. intuition.
Qed.

Lemma obj_set_NoDup k v o :
  NoDup (map fst o) -> NoDup (map fst (obj_set k v o)).
Proof.
  induction o as [|[k0 v0] o IH]; simpl; intro H.
  - constructor; [intros []|constructor].
  - inversion H as [|? ? Hnotin Hnd]; subst.
    destruct (String.eqb k k0) eqn:E; simpl.
    + constructor; assumption.
    + constructor; [|now apply IH].
      rewrite obj_set_keys. intros [->|Hin]; [|contradiction].
      now rewrite String.eqb_refl in E.
Qed.

Lemma obj_set_entries k v o k' x :
  NoDup (map fst o) ->
  In (k', x) (obj_set k v o) <-> (k' = k /\ x = v) \/ (k' <> k /\ In (k', x) o).
Proof.
  induction o as [|[k0 v0] o IH]; simpl; intro H.
  - split.
    + intros [E|[]]. inversion E. now left.
    + intros [[-> ->]|[_ []]]. now left.
  - inversion H as [|? ? Hnotin Hnd]; subst.
    destruct (String.eqb k k0) eqn:E; simpl.
    + apply String.eqb_eq in E. subst k0. split.
      * intros [E|Hin].
        -- inversion E. now left.
        -- right. split; [|now right].
           intros ->. apply Hnotin. change k with (fst (k, x)). now apply in_map.
      * intros [[-> ->]|[Hne [E|Hin]]].
        -- now left.
        -- inversion E. congruence.
        -- now right.
    + apply String.eqb_neq in E. rewrite (IH Hnd). split.
      * intros [E'|[[-> ->]|[Hne Hin]]].
        -- inversion E'; subst. right. split; [congruence|now left].
        -- now left.
        -- right. split; [assumption|now right].
      * intros [[-> ->]|[Hne [E'|Hin]]].
        -- right. now left.
        -- now left.
        -- right. right. now split.
Qed.

Lemma fold_obj_set_NoDup l : forall acc,
  NoDup (map fst acc) ->
  NoDup (map fst (fold_left (fun o p => obj_set (fst p) (snd p) o) l acc)).
Proof.
  induction l as [|[k v] l IH]; simpl; intros acc H; [assumption|].
  apply IH. now apply obj_set_NoDup.
Qed.

Lemma fromEntries_NoDup l : NoDup (map fst (fromEntries l)).
Proof. apply fold_obj_set_NoDup. constructor. Qed.

Lemma fold_obj_set_fresh l : forall acc,
  NoDup (map fst (acc ++ l)) ->
  fold_left (fun o p => obj_set (fst p) (snd p) o) l acc = acc ++ l.
Proof.
  induction l as [|[k v] l IH]; simpl; intros acc H.
  - now rewrite app_nil_r.
  - rewrite obj_set_fresh.
    + rewrite IH; rewrite <- app_assoc; [reflexivity|exact H].
    + rewrite map_app in H. simpl in H. apply NoDup_remove_2 in H.
      intro Hin. apply H. apply in_or_app. now left.
Qed.

(** On an object, [Object.fromEntries(Object.entries(o))] is [o]. *)
Lemma fromEntries_object o : NoDup (map fst o) -> fromEntries o = o.
Proof. intro H. unfold fromEntries. now rewrite fold_obj_set_fresh. Qed.

Lemma filter_keys_NoDup (f : string * value -> bool) o :
  NoDup (map fst o) -> NoDup (map fst (filter f o)).
Proof.
  induction o as [|p o IH]; simpl; intro H; [constructor|].
  inversion H as [|? ? Hnotin Hnd]; subst.
  destruct (f p); simpl; [|now apply IH].
  constructor; [|now apply IH].
  intro Hin. apply Hnotin. apply in_map_iff in Hin as (q & Hq & Hin).
  apply filter_In in Hin as [Hin _]. rewrite <- Hq. now apply in_map.
Qed.

Lemma string_entries_filter o :
  map (fun p => (fst p, string_of_value (snd p))) (filter (fun p => is_string (snd p)) o)
  = string_entries o.
Proof.
  induction o as [|[k v] o IH]; [reflexivity|].
  destruct v; simpl; rewrite ?IH; reflexivity.
Qed.

Lemma string_entries_In o k v :
  In (k, v) (string_entries o) <-> In (k, VStr v) o.
Proof.
  induction o as [|[k0 v0] o IH]; simpl; [tauto|].
  destruct v0; simpl; rewrite IH; split;
    try (intros [E|H]; [inversion E; subst; now left | now right]);
    try (intro H; now right);
    try (intros [E|H]; [discriminate E | exact H]).
Qed.

(** The query string [getPath] builds for an object reads back as the
    string-valued entries of the object, in their order. *)
Lemma query_of_object o :
  NoDup (map fst o) -> parse_query (query_of o) = string_entries o.
Proof.
  intro H. unfold query_of.
  rewrite fromEntries_object by now apply filter_keys_NoDup.
  rewrite parse_query_toString. apply string_entries_filter.
Qed.

Lemma spread_with_roomId_NoDup data roomId :
  NoDup (map fst (spread_with_roomId data roomId)).
Proof. apply obj_set_NoDup, fromEntries_NoDup. Qed.

(** C10: the path handed to [openWindow] is the target path, a question
    mark and a query string which reads back as exactly the string-valued
    entries of the payload: for [signTransaction] the string-valued fields
    of the unsigned transaction (a field that is not a string is left out)
    with [roomId] when it is a string, the argument taking the place of a
    field of that name; for [createWallet] the [roomId] alone.  The popup,
    when there is one, is at the base URL followed by that path. *)
Theorem popup_query_is_the_string_entries s pg roomId data :
  NoDup (map fst data) ->
  let q := query_of (spread_with_roomId data roomId) in
  let q' := query_of [("roomId", roomId)] in
  signTransaction s pg roomId data
    = open_and_listen s pg ("/transaction/send" ++ "?" ++ q)%string /\
  (forall p, popup (signTransaction s pg roomId data) = Some p ->
             location p = (baseURL s ++ "/transaction/send" ++ "?" ++ q)%string) /\
  (forall k v,
      In (k, v) (parse_query q) <->
      (k = "roomId" /\ roomId = VStr v) \/ (k <> "roomId" /\ In (k, VStr v) data)) /\
  createWallet s pg roomId = open_and_listen s pg ("/auth" ++ "?" ++ q')%string /\
  (forall p, popup (createWallet s pg roomId) = Some p ->
             location p = (baseURL s ++ "/auth" ++ "?" ++ q')%string) /\
  (forall k v, In (k, v) (parse_query q') <-> k = "roomId" /\ roomId = VStr v).
Proof.
  intros Hdata q q'.
  assert (forall path p,
             popup (open_and_listen s pg path) = Some p ->
             location p = (baseURL s ++ path)%string) as Hloc.
  { intros path p. unfold open_and_listen, openWindow.
    destruct (host_of pg) as [|[message|]|]; simpl; try discriminate;
      (destruct (popup_blocked pg); [discriminate|]);
      intro H; inversion H; reflexivity. }
  split; [reflexivity|]. split; [intros p Hp; now apply Hloc in Hp|].
  split; [|split; [reflexivity|split; [intros p Hp; now apply Hloc in Hp|]]].
  - intros k v. subst q.
    rewrite query_of_object by apply spread_with_roomId_NoDup.
    rewrite string_entries_In. unfold spread_with_roomId.
    rewrite (fromEntries_object data Hdata).
    rewrite (obj_set_entries "roomId" roomId data k (VStr v) Hdata).
    split; intros [[-> H]|H]; auto.
  - intros k v. subst q'.
    rewrite query_of_object by (simpl; constructor; [intros []|constructor]).
    rewrite string_entries_In. simpl. split.
    + intros [E|[]]. inversion E. auto.
    + intros [-> ->]. now left.
Qed.

(** C8: for a pending call of [createWallet] or [signTransaction], a
    message whose origin is the base URL resolves the promise; the popup
    is closed when the payload is the string "close" and left as it is for
    any other payload; a message of another origin changes nothing, the
    promise stays pending. *)
Theorem message_settles_pending_action s pg roomId data i event :
  i = createWallet s pg roomId \/ i = signTransaction s pg roomId data ->
  promise i = Pending ->
  (origin event = baseURL s ->
     promise (on_message event i) = Resolved /\
     (payload event = VStr "close" ->
        popup (on_message event i) = option_map close (popup i)) /\
     (payload event <> VStr "close" ->
        popup (on_message event i) = popup i)) /\
  (origin event <> baseURL s ->
     on_message event i = i /\ promise (on_message event i) = Pending).
Proof.
  intros Hi Hpending.
  assert (listening i = Some (baseURL s)) as Hl.
  { destruct Hi as [-> | ->]; unfold createWallet, signTransaction, open_and_listen in *;
      match goal with |- context [openWindow ?a ?b ?c] => destruct (openWindow a b c) end;
      simpl in *; try reflexivity; discriminate. }
  unfold on_message. rewrite Hl. split.
  - intro Ho. apply String.eqb_eq in Ho. rewrite Ho. simpl. rewrite Hpending.
    split; [reflexivity|]. split.
    + intros ->. simpl. destruct (popup i); reflexivity.
    + intro Hne. destruct (popup i) as [p|]; [|reflexivity].
      destruct (payload event) as [| | | |str|]; simpl; try reflexivity.
      destruct (String.eqb str "close") eqn:E; [|reflexivity].
      apply String.eqb_eq in E. subst. now contradiction Hne.
  - intro Ho. apply String.eqb_neq in Ho. rewrite Ho. now split.
Qed.

(** ** The claims on scripted services *)

(** C1, where the code departs from it: the logout endpoint answers 500,
    and [logout] does not throw; it returns, the user and the refresh
    credential are cleared ([isLoggedIn] goes from true to false) and a
    [logout] event is published. *)
Theorem logout_clears_although_the_call_failed :
  let w := logged_in "A" "R" logout_refused in
  isLoggedIn (sess w) = true /\
  exists w',
    logout scripted 1 w = Returned tt w' /\
    map snd (traffic w') = [Reply 500 VNull] /\
    isLoggedIn (sess w') = false /\
    _user (sess w') = VUndefined /\
    userRefreshToken (sess w') = VUndefined /\
    emitted (bus (sess w')) = [(Emitter.logout, VNull)].
Proof.
  split; [reflexivity|]. eexists. vm_compute. repeat split.
Qed.

(** C2 is not what the code does: the protected path answers 401 to the
    request and 401 again to the retried request; the client refreshes a
    second time and sends the request a third time. *)
Lemma second_401_starts_a_second_cycle :
  exists r w',
    request scripted 3 get_tokens (logged_in "A" "R" twice_unauthorized)
      = Returned (IsResponse r) w' /\
    r_data r = VStr "ok" /\
    map snd (to_path "/api/tokens" (traffic w'))
      = [Reply 401 VNull; Reply 401 VNull; Reply 200 (VStr "ok")] /\
    length (to_path "/api/auth/refresh" (traffic w')) = 2.
Proof.
  do 2 eexists. vm_compute. repeat split.
Qed.

Lemma a_401_starts_one_refresh_then_reissues_witness :
  let w := logged_in "A" "R" once_unauthorized in
  exists c1 w2,
    request scripted 2 get_tokens w = request scripted 1 c1 w2 /\
    (forall status' body',
        let c2 := run_request_interceptors (request_handlers (sess w2)) c1 in
        snd (scripted (srv w2) c2) = Reply status' body' ->
        status' <> 401%Z ->
        exists x,
          request scripted 2 get_tokens w =
            Returned x (mkWorld (sess w2) (fst (scripted (srv w2) c2))
                                (traffic w2 ++ [(c2, Reply status' body')]))).
Proof.
  intro w. do 2 eexists.
  eapply (a_401_starts_one_refresh_then_reissues script scripted 0 get_tokens w);
    reflexivity.
Defined.

(** The refresh endpoint included, a service that answers 401 to
    everything never lets a request of a client with a refresh credential
    settle. *)
Lemma always_401_never_settles fuel : forall c (w : world unit),
  truthy (userRefreshToken (sess w)) = true ->
  request revoked fuel c w = OutOfFuel.
Proof.
  induction fuel as [|fuel IH]; intros c w Htok; [reflexivity|].
  rewrite request_S. cbv zeta. unfold revoked at 1 2. cbn [fst snd].
  change (validateStatus 401) with false. cbv iota.
  rewrite response_rejected_401 by exact Htok.
  unfold refreshToken_body, try_catch, bind, this, post. cbn [sess].
  rewrite Htok. cbn [negb].
  rewrite IH; [reflexivity|exact Htok].
Qed.

(** C3 is not what the code does when the refresh fails with a 401 of its
    own: the refresh request is then intercepted, too, and a second
    refresh is sent before the original 401 comes back; and while the
    service keeps answering 401 the original 401 never comes back. *)
Lemma refresh_answered_401_refreshes_again :
  (exists error w',
      request scripted 3 get_tokens (logged_in "A" "R" refresh_unauthorized_then_refused)
        = Returned (IsError error) w' /\
      map snd (to_path "/api/auth/refresh" (traffic w'))
        = [Reply 401 VNull; Reply 500 VNull]) /\
  (forall fuel,
      request revoked fuel get_tokens (mkWorld (logged_in_session "A" "R") tt [])
      = OutOfFuel).
Proof.
  split.
  - do 2 eexists. vm_compute. split; reflexivity.
  - intro fuel. now apply always_401_never_settles.
Qed.

Lemma failed_refresh_returns_the_401_witness :
  exists c1 w',
    request scripted 2 get_tokens (logged_in "A" "R" refresh_refused) =
      Returned (IsError (mkError c1 (Some (mkResponse 401 VNull c1)))) w' /\
    map snd (traffic w') = [Reply 401 VNull; Reply 500 VNull] /\
    console (sess w') = [JsError "Refresh token failed"].
Proof.
  destruct (failed_refresh_returns_the_401 script scripted 0 get_tokens
              (logged_in "A" "R" refresh_refused)
              [("/api/tokens", []); ("/api/auth/refresh", [Reply 500 VNull])] VNull
              eq_refl eq_refl) as [_ Hrefused].
  do 2 eexists. split.
  - eapply Hrefused; [reflexivity|split; [reflexivity|discriminate]].
  - split; reflexivity.
Defined.

Lemma refreshToken_refetches_the_user_witness :
  let w := logged_in "A" "R" healthy in
  exists rec w',
    refreshToken scripted 1 w = Returned rec w' /\
    truthy (userRefreshToken (sess w)) = true /\
    exists r w1 accessToken y w2 cu ou rest,
      request scripted 1
        (mkConfig POST "/api/auth/refresh"
           [("Authorization", ("Bearer " ++ template (userRefreshToken (sess w)))%string)]
           VUndefined) w
        = Returned (IsResponse r) w1 /\
      url (r_config r) = "/api/auth/refresh" /\
      validateStatus (r_status r) = true /\
      In (r_config r, Reply (r_status r) (r_data r)) (traffic w1) /\
      rec = r_data r /\
      get_prop (r_data r) "token" = inr accessToken /\
      request scripted 1 (mkConfig GET "/api/users/me" [] VUndefined)
        (mkWorld (useCredentials accessToken (sess w1)) (srv w1) (traffic w1))
        = Returned y w2 /\
      traffic w2 = traffic w1 ++ (cu, ou) :: rest /\
      url cu = "/api/users/me" /\ method cu = GET /\
      w' = mkWorld (set_user (data_of y) (sess w2)) (srv w2) (traffic w2) /\
      _user (sess w') = data_of y.
Proof.
  intro w. do 2 eexists. split; [vm_compute; reflexivity|].
  apply (refreshToken_refetches_the_user script scripted 1 w).
  vm_compute. reflexivity.
Defined.

(** C5 is not what the code does: without a refresh credential
    [refreshToken] throws "Refresh token failed", not the error it raised
    for the missing credential, and that is the very error a refused
    refresh ends in. *)
Lemma missing_credential_error_is_not_distinct :
  refreshToken scripted 1 (start []) = Thrown (JsError "Refresh token failed") (start []) /\
  refreshToken scripted 1 (start []) <> Thrown (JsError "Refresh token not found") (start []) /\
  exists w',
    refreshToken scripted 1 (logged_in "A" "R" refresh_refused)
      = Thrown (JsError "Refresh token failed") w'.
Proof.
  split; [reflexivity|]. split; [vm_compute; discriminate|].
  eexists. vm_compute. reflexivity.
Qed.

Lemma refreshToken_without_credential_witness :
  truthy (userRefreshToken (sess (start []))) = false /\
  refreshToken scripted 0 (start []) = Thrown (JsError "Refresh token failed") (start []).
Proof.
  split; [reflexivity|].
  apply (refreshToken_without_credential script scripted 0 (start [])). reflexivity.
Defined.

(** C6, where the code departs from it: after a login that installed the
    access credential A and a refresh that installed B, both interceptors
    are in place, and the next request carries one Authorization header,
    with the credential A of the login. *)
Theorem stale_credential_after_refresh :
  exists w1 w2 u w3,
    authWithDiscord scripted 1 credentials (start healthy) = Returned tt w1 /\
    refreshToken scripted 1 w1 = Returned (token_record "B") w2 /\
    request_handlers (sess w2) = [Some (VStr "A"); Some (VStr "B")] /\
    fetchUser scripted 1 w2 = Returned u w3 /\
    map (fun x => (url (fst x), header_count "Authorization" (fst x),
                   header "Authorization" (fst x)))
        (skipn (length (traffic w2)) (traffic w3))
      = [("/api/users/me", 1, Some "Bearer A")].
Proof.
  do 4 eexists. vm_compute. repeat split.
Qed.

(** C7, where the code departs from it: the identity endpoint answers 500,
    and [fetchUser] does not throw; it returns [undefined] and stores
    [undefined] as the user. *)
Theorem fetchUser_returns_although_the_call_failed :
  let w := logged_in "A" "R" identity_refused in
  _user (sess w) = a_user /\
  exists w',
    fetchUser scripted 1 w = Returned VUndefined w' /\
    map snd (traffic w') = [Reply 500 VNull] /\
    _user (sess w') = VUndefined.
Proof.
  split; [reflexivity|]. eexists. vm_compute. repeat split.
Qed.

(** C9, where the code departs from it: a login succeeds with a handler
    subscribed to [login], and nothing is published: no [emit] is recorded
    and the handler is not called. *)
Theorem login_publishes_no_event :
  exists w',
    authWithDiscord scripted 1 credentials (subscribed healthy) = Returned tt w' /\
    userRefreshToken (sess w') = VStr "R" /\
    request_handlers (sess w') = [Some (VStr "A")] /\
    handlers_for login (bus (sess w')) = [Subscriber "app"] /\
    emitted (bus (sess w')) = [] /\
    delivered (bus (sess w')) = [].
Proof.
  eexists. vm_compute. repeat split.
Qed.

Lemma message_settles_pending_action_witness :
  let s := logged_in_session "A" "R" in
  let i := createWallet s a_page (VStr "ab12") in
  let event := mkMessage "https://wallet.example" (VStr "close") in
  (origin event = baseURL s ->
     promise (on_message event i) = Resolved /\
     (payload event = VStr "close" ->
        popup (on_message event i) = option_map close (popup i)) /\
     (payload event <> VStr "close" ->
        popup (on_message event i) = popup i)) /\
  (origin event <> baseURL s ->
     on_message event i = i /\ promise (on_message event i) = Pending).
Proof.
  intros s i event.
  apply (message_settles_pending_action s a_page (VStr "ab12") a_transaction i event).
  - left. reflexivity.
  - reflexivity.
Defined.

Lemma popup_query_is_the_string_entries_witness :
  let s := logged_in_session "A" "R" in
  let q := query_of (spread_with_roomId a_transaction (VStr "ab12")) in
  q = "to=0xdef&value=1+000&roomId=ab12" /\
  (forall k v,
      In (k, v) (parse_query q) <->
      (k = "roomId" /\ VStr "ab12" = VStr v) \/
      (k <> "roomId" /\ In (k, VStr v) a_transaction)).
Proof.
  intros s q. split; [reflexivity|].
  assert (NoDup (map fst a_transaction)) as Hobject.
  { simpl. repeat constructor; simpl; intuition discriminate. }
  apply (popup_query_is_the_string_entries s a_page (VStr "ab12") a_transaction Hobject).
Defined.

(** ** More facts about the client *)

Section MoreClientFacts.

Variable Srv : Type.
Variable serve : Srv -> config -> Srv * outcome.

(** X1: the client never rejects.  A request either does not settle or
    settles with a value, a response or an error object, and in settling it
    leaves the refresh credential, the base URL and the published events
    as they were, while the log of exchanges and the list of request
    interceptors only grow. *)
Theorem request_always_resolves fuel c (w : world Srv) :
  request serve fuel c w = OutOfFuel \/
  exists x w', request serve fuel c w = Returned x w' /\ frame w w'.
Proof.
  pose proof (request_never_throws Srv serve fuel c w) as Hnt.
  pose proof (in_frame_request Srv serve fuel c w) as F.
  destruct (request serve fuel c w) as [x w'|e w'|].
  - right. eauto.
  - now contradiction (Hnt e w').
  - now left.
Qed.

(** Without a refresh credential a request is one exchange. *)
Lemma request_without_credential fuel c (w : world Srv) :
  truthy (userRefreshToken (sess w)) = false ->
  let c1 := run_request_interceptors (request_handlers (sess w)) c in
  request serve (S fuel) c w =
    Returned
      match snd (serve (srv w) c1) with
      | Reply status body =>
          if validateStatus status then IsResponse (mkResponse status body c1)
          else IsError (mkError c1 (Some (mkResponse status body c1)))
      | NoReply => IsError (mkError c1 None)
      end
      (mkWorld (sess w) (fst (serve (srv w) c1))
               (traffic w ++ [(c1, snd (serve (srv w) c1))])).
Proof.
  intros Htok c1. rewrite request_S. cbv zeta. fold c1.
  destruct (snd (serve (srv w) c1)) as [status body|].
  - destruct (validateStatus status); [reflexivity|].
    unfold response_rejected, bind, this, ret. cbn [sess]. rewrite Htok.
    now rewrite andb_false_r.
  - unfold response_rejected, bind, this, ret. cbn [sess]. rewrite Htok.
    now rewrite andb_false_r.
Qed.

(** X2: a request that fails without a retry being due (no reply at all,
    or a status outside 2xx that is not 401, or a 401 while no refresh
    credential is stored) is one exchange: it settles with the error
    object, config and response of that exchange, and the session is
    untouched. *)
Theorem failure_passes_through_as_a_value fuel c (w : world Srv) srv1 out :
  let c1 := run_request_interceptors (request_handlers (sess w)) c in
  serve (srv w) c1 = (srv1, out) ->
  match out with
  | Reply status _ =>
      validateStatus status = false /\
      (status <> 401%Z \/ truthy (userRefreshToken (sess w)) = false)
  | NoReply => True
  end ->
  request serve (S fuel) c w =
    Returned
      (IsError (mkError c1 match out with
                           | Reply status body => Some (mkResponse status body c1)
                           | NoReply => None
                           end))
      (mkWorld (sess w) srv1 (traffic w ++ [(c1, out)])).
Proof.
  intros c1 Hserve Hout. rewrite request_S. cbv zeta. fold c1.
  rewrite Hserve. cbn [fst snd].
  destruct out as [status body|].
  - destruct Hout as [-> Hwhy].
    unfold response_rejected, bind, this, ret, is_401. cbn [sess e_response r_status].
    destruct Hwhy as [Hne|Htok].
    + apply Z.eqb_neq in Hne. now rewrite Hne.
    + rewrite Htok. now rewrite andb_false_r.
  - reflexivity.
Qed.

(** X3: against a service that answers 401 to everything, the refresh
    endpoint included, a request of a client that holds a refresh
    credential does not settle, whatever the fuel: each refresh is itself
    answered 401 and starts the next. *)
Theorem revoked_session_never_settles fuel : forall c (w : world Srv),
  (forall st c', exists st' body, serve st c' = (st', Reply 401 body)) ->
  truthy (userRefreshToken (sess w)) = true ->
  request serve fuel c w = OutOfFuel.
Proof.
  induction fuel as [|fuel IH]; intros c w Hserve Htok; [reflexivity|].
  rewrite request_S. cbv zeta.
  destruct (Hserve (srv w) (run_request_interceptors (request_handlers (sess w)) c))
    as (st' & body & ->).
  cbn [fst snd]. change (validateStatus 401) with false. cbv iota.
  rewrite response_rejected_401 by exact Htok.
  unfold refreshToken_body, try_catch, bind, this, post. cbn [sess].
  rewrite Htok. cbn [negb].
  rewrite IH; [reflexivity|exact Hserve|exact Htok].
Qed.

End MoreClientFacts.

(** ** Which credential a request carries *)

Lemma same_name_refl name : same_name name name = true.
Proof. unfold same_name. apply String.eqb_refl. Qed.

Lemma headers_set_twice name v v' hs :
  headers_set name v (headers_set name v' hs) = headers_set name v hs.
Proof.
  induction hs as [|[n x] hs IH]; simpl.
  - now rewrite same_name_refl.
  - destruct (same_name name n) eqn:E; simpl; rewrite E; [reflexivity|now rewrite IH].
Qed.

Lemma headers_set_keeps_the_others name v hs :
  filter (fun p => negb (same_name name (fst p))) (headers_set name v hs)
  = filter (fun p => negb (same_name name (fst p))) hs.
Proof.
  induction hs as [|[n x] hs IH]; simpl.
  - now rewrite same_name_refl.
  - destruct (same_name name n) eqn:E; simpl; rewrite E; simpl;
      [reflexivity|now rewrite IH].
Qed.

Lemma header_count_headers_set name v hs :
  length (filter (fun p => same_name name (fst p)) (headers_set name v hs))
  = Nat.max 1 (length (filter (fun p => same_name name (fst p)) hs)).
Proof.
  induction hs as [|[n x] hs IH]; simpl.
  - now rewrite same_name_refl.
  - destruct (same_name name n) eqn:E; simpl; rewrite E; simpl.
    + reflexivity.
    + exact IH.
Qed.

Lemma interceptors_as_first_active hs c :
  run_request_interceptors hs c =
    match first_active hs with
    | Some accessToken =>
        set_header c "Authorization" ("Bearer " ++ template accessToken)%string
    | None => c
    end.
Proof.
  induction hs as [|[t|] hs IH]; simpl; [reflexivity| |exact IH].
  unfold createAccessTokenInterceptor. destruct (truthy t); [|exact IH].
  rewrite IH. destruct (first_active hs) as [t'|]; [|reflexivity].
  unfold set_header. cbn [headers method url data]. now rewrite headers_set_twice.
Qed.

(** X4: what the installed interceptors do to a request.  Its
    Authorization header (the name taken in any case) is the bearer token
    of the interceptor registered first among those that are not ejected
    and have a truthy token, or the request's own header when there is
    none; the entries of other names stay as they are, in their order; and
    the header is overwritten, never added a second time. *)
Theorem outgoing_authorization_header hs c :
  header "Authorization" (run_request_interceptors hs c) =
    match first_active hs with
    | Some accessToken => Some ("Bearer " ++ template accessToken)%string
    | None => header "Authorization" c
    end /\
  filter (fun p => negb (same_name "Authorization" (fst p)))
         (headers (run_request_interceptors hs c))
  = filter (fun p => negb (same_name "Authorization" (fst p))) (headers c) /\
  header_count "Authorization" (run_request_interceptors hs c) =
    match first_active hs with
    | Some _ => Nat.max 1 (header_count "Authorization" c)
    | None => header_count "Authorization" c
    end.
Proof.
  rewrite interceptors_as_first_active.
  destruct (first_active hs) as [t|]; [|auto].
  unfold header, header_count, set_header. cbn [headers]. repeat split.
  - now rewrite header_after_set.
  - apply headers_set_keeps_the_others.
  - apply header_count_headers_set.
Qed.

Lemma first_active_app a hs more :
  truthy a = true -> first_active ((Some a :: hs) ++ more) = Some a.
Proof. intro H. simpl. now rewrite H. Qed.

Section CredentialFacts.

Variable Srv : Type.
Variable serve : Srv -> config -> Srv * outcome.

(** X5: while the interceptor registered first holds a truthy token,
    every request after a [refreshToken], successful or not, still carries
    that first token. *)
Theorem first_credential_outlives_refreshes fuel (w : world Srv) a hs :
  request_handlers (sess w) = Some a :: hs ->
  truthy a = true ->
  match refreshToken serve fuel w with
  | Returned _ w' | Thrown _ w' =>
      forall c, header "Authorization"
                  (run_request_interceptors (request_handlers (sess w')) c)
                = Some ("Bearer " ++ template a)%string
  | OutOfFuel => True
  end.
Proof.
  intros Hhs Ha.
  pose proof (in_frame_refreshToken_body Srv (request serve fuel)
                (in_frame_request Srv serve fuel) w) as F.
  unfold refreshToken.
  destruct (refreshToken_body Srv (request serve fuel) w) as [v w'|e w'|]; trivial;
    destruct F as (_ & [more Hmore] & _); intro c;
    rewrite Hmore, Hhs; apply oldest_interceptor_wins; exact Ha.
Qed.

(** X6: whenever [refreshToken] throws, whatever the cause, it throws
    the error "Refresh token failed", and it leaves the refresh credential
    and the published events as they were. *)
Theorem refreshToken_fails_with_one_error fuel (w : world Srv) e w' :
  refreshToken serve fuel w = Thrown e w' ->
  e = JsError "Refresh token failed" /\
  userRefreshToken (sess w') = userRefreshToken (sess w) /\
  emitted (bus (sess w')) = emitted (bus (sess w)).
Proof.
  intro H.
  pose proof (in_frame_refreshToken_body Srv (request serve fuel)
                (in_frame_request Srv serve fuel) w) as F.
  unfold refreshToken in H. rewrite H in F.
  destruct F as (_ & _ & Htok & _ & Hem & _).
  split; [|now split].
  unfold refreshToken_body, try_catch, throw in H.
  match type of H with
  | match ?m with _ => _ end = _ => destruct m; inversion H; reflexivity
  end.
Qed.

(** How a returning [refreshToken] ran. *)
Lemma refreshToken_returned_parts fuel (w : world Srv) rec w' :
  refreshToken serve fuel w = Returned rec w' ->
  truthy (userRefreshToken (sess w)) = true /\
  exists x w1 t y w2,
    request serve fuel
      (mkConfig POST "/api/auth/refresh"
         [("Authorization", ("Bearer " ++ template (userRefreshToken (sess w)))%string)]
         VUndefined) w = Returned x w1 /\
    rec = data_of x /\
    get_prop rec "token" = inr t /\
    request serve fuel (mkConfig GET "/api/users/me" [] VUndefined)
      (mkWorld (useCredentials t (sess w1)) (srv w1) (traffic w1)) = Returned y w2 /\
    w' = mkWorld (set_user (data_of y) (sess w2)) (srv w2) (traffic w2).
Proof.
  unfold refreshToken, refreshToken_body, fetchUser_body, post, get.
  unfold try_catch, bind, this, throw, ret, modify.
  destruct (truthy (userRefreshToken (sess w))); [|discriminate].
  cbn [negb]. intro Hrun. split; [reflexivity|]. revert Hrun.
  match goal with |- context [request serve fuel ?c w] => set (c0 := c) end.
  destruct (request serve fuel c0 w) as [x w1|e w1|]; try discriminate.
  unfold lift, throw, ret.
  destruct (get_prop (data_of x) "token") as [e|t] eqn:Hprop; try discriminate.
  match goal with |- context [request serve fuel ?c ?w0] =>
    lazymatch c with
    | mkConfig GET _ _ _ => set (cg := c); set (wg := w0)
    end
  end.
  destruct (request serve fuel cg wg) as [y w2|e w2|] eqn:Hget; try discriminate.
  intro H. inversion H; subst rec w'.
  exists x, w1, t, y, w2. repeat split; trivial.
Qed.

(** X7: a [refreshToken] that returns does not rotate the refresh
    credential; it has installed an interceptor for the [token] of the
    record it returns; and [isLoggedIn] is then decided by the user that
    was fetched. *)
Theorem refreshToken_keeps_the_refresh_credential fuel (w : world Srv) rec w' :
  refreshToken serve fuel w = Returned rec w' ->
  userRefreshToken (sess w') = userRefreshToken (sess w) /\
  isLoggedIn (sess w') = truthy (_user (sess w')) /\
  exists accessToken,
    get_prop rec "token" = inr accessToken /\
    In (Some accessToken) (request_handlers (sess w')).
Proof.
  intro H.
  pose proof (in_frame_refreshToken_body Srv (request serve fuel)
                (in_frame_request Srv serve fuel) w) as F.
  unfold refreshToken in H. rewrite H in F.
  destruct F as (_ & _ & Htok & _).
  destruct (refreshToken_returned_parts fuel w rec w' H)
    as (Htruthy & x & w1 & t & y & w2 & _ & _ & Hprop & Hget & Hw').
  split; [exact Htok|]. split.
  - unfold isLoggedIn. rewrite Htok, Htruthy. now rewrite andb_true_r.
  - exists t. split; [exact Hprop|].
    match type of Hget with request _ _ ?cg ?wg = _ =>
      pose proof (in_frame_request Srv serve fuel cg wg) as F'
    end.
    rewrite Hget in F'.
    destruct F' as (_ & [more Hmore] & _). rewrite Hw'.
    cbn [sess request_handlers set_user]. rewrite Hmore. cbn [sess].
    unfold useCredentials, use. cbn [request_handlers on set_bus set_request_handlers].
    apply in_or_app. left. apply in_or_app. right. now left.
Qed.

End CredentialFacts.

(** ** Properties of the session that every method keeps *)

Section Preservation.

Variable Srv : Type.
Variable serve : Srv -> config -> Srv * outcome.
Variable P : session -> Prop.

Lemma preserves_ret {A : Type} (a : A) : preserves P (ret Srv a).
Proof. intros w H. exact H. Qed.

Lemma preserves_throw {A : Type} (e : exn) : preserves P (@throw Srv A e).
Proof. intros w H. exact H. Qed.

Lemma preserves_lift {A : Type} (x : exn + A) : preserves P (lift Srv x).
Proof. destruct x; intros w H; exact H. Qed.

Lemma preserves_this : preserves P (this Srv).
Proof. intros w H. exact H. Qed.

Lemma preserves_bind {A B : Type} (m : M Srv A) (k : A -> M Srv B) :
  preserves P m -> (forall a, preserves P (k a)) -> preserves P (bind Srv m k).
Proof.
  intros Hm Hk w H. unfold bind. specialize (Hm w H).
  destruct (m w) as [a w1|e w1|]; trivial. apply Hk. exact Hm.
Qed.

Lemma preserves_try_catch {A : Type} (m : M Srv A) (h : exn -> M Srv A) :
  preserves P m -> (forall e, preserves P (h e)) -> preserves P (try_catch Srv m h).
Proof.
  intros Hm Hh w H. unfold try_catch. specialize (Hm w H).
  destruct (m w) as [a w1|e w1|]; trivial. apply Hh. exact Hm.
Qed.

Lemma preserves_modify (f : session -> session) :
  (forall s, P s -> P (f s)) -> preserves P (modify Srv f).
Proof. intros Hf w H. simpl. now apply Hf. Qed.

Lemma preserves_dispatch c : preserves P (dispatch Srv serve c).
Proof.
  intros w H. unfold dispatch. destruct (serve (srv w) c) as [srv' [status body|]];
    [destruct (validateStatus status)|]; exact H.
Qed.

Hypothesis P_set_user : forall v s, P s -> P (set_user v s).
Hypothesis P_useCredentials : forall v s, P s -> P (useCredentials v s).
Hypothesis P_console_error : forall e s, P s -> P (console_error e s).

Section OverARequest.

Variable req : config -> M Srv settled.
Hypothesis req_preserves : forall c, preserves P (req c).

Lemma preserves_fetchUser_body : preserves P (fetchUser_body Srv req).
Proof.
  unfold fetchUser_body, get.
  apply preserves_bind; [apply req_preserves|]. intro x.
  apply preserves_bind; [apply preserves_modify, P_set_user|]. intros _.
  apply preserves_ret.
Qed.

Lemma preserves_refreshToken_body : preserves P (refreshToken_body Srv req).
Proof.
  unfold refreshToken_body, post.
  apply preserves_try_catch; [|intro; apply preserves_throw].
  apply preserves_bind; [apply preserves_this|]. intro s.
  destruct (negb (truthy (userRefreshToken s))); [apply preserves_throw|].
  apply preserves_bind; [apply req_preserves|]. intro x.
  apply preserves_bind; [apply preserves_lift|]. intro t.
  apply preserves_bind; [apply preserves_modify, P_useCredentials|]. intros _.
  apply preserves_bind; [apply preserves_fetchUser_body|]. intros _.
  apply preserves_ret.
Qed.

Lemma preserves_response_rejected error : preserves P (response_rejected Srv req error).
Proof.
  unfold response_rejected.
  apply preserves_bind; [apply preserves_this|]. intro s.
  destruct (is_401 error && truthy (userRefreshToken s)); [|apply preserves_ret].
  apply preserves_try_catch.
  - apply preserves_bind; [apply preserves_refreshToken_body|]. intros _.
    apply req_preserves.
  - intro e. apply preserves_bind; [apply preserves_modify, P_console_error|].
    intros _. apply preserves_ret.
Qed.

End OverARequest.

Lemma preserves_request fuel : forall c, preserves P (request serve fuel c).
Proof.
  induction fuel as [|fuel IH]; intro c.
  - intros w _. exact I.
  - simpl. apply preserves_bind; [apply preserves_this|]. intro s.
    apply preserves_bind; [apply preserves_dispatch|]. intros [r|error].
    + apply preserves_ret.
    + apply preserves_response_rejected. exact IH.
Qed.

End Preservation.

(** *** Every interceptor can be ejected *)

Lemma well_subscribed_create b : well_subscribed (create b).
Proof. intros id H. simpl in H. lia. Qed.

Lemma well_subscribed_set_user v s : well_subscribed s -> well_subscribed (set_user v s).
Proof. intros H id. apply H. Qed.

Lemma well_subscribed_set_userRefreshToken v s :
  well_subscribed s -> well_subscribed (set_userRefreshToken v s).
Proof. intros H id. apply H. Qed.

Lemma well_subscribed_console_error e s :
  well_subscribed s -> well_subscribed (console_error e s).
Proof. intros H id. apply H. Qed.

Lemma well_subscribed_useCredentials v s :
  well_subscribed s -> well_subscribed (useCredentials v s).
Proof.
  intros H id. unfold useCredentials, use. simpl.
  rewrite length_app. simpl. intro Hid.
  apply in_or_app.
  destruct (Nat.eq_dec id (length (request_handlers s))) as [->|Hne].
  - right. now left.
  - left. apply H. lia.
Qed.

Lemma well_subscribed_on k h s : well_subscribed s -> well_subscribed (on k h s).
Proof.
  intros H id Hid. unfold on, Emitter.on. simpl. apply in_or_app. left. now apply H.
Qed.

Lemma eject_length id hs : length (eject id hs) = length hs.
Proof.
  revert id. induction hs as [|h hs IH]; intros [|id]; simpl; auto.
Qed.

Lemma eject_nth_same id hs :
  id < length hs -> nth_error (eject id hs) id = Some None.
Proof.
  revert id. induction hs as [|h hs IH]; intros [|id]; simpl; intro H; try lia; auto.
  apply IH. lia.
Qed.

Lemma eject_nth_none id hs j :
  nth_error hs j = Some None -> nth_error (eject id hs) j = Some None.
Proof.
  revert id j. induction hs as [|h hs IH]; intros [|id] [|j]; simpl; auto.
Qed.

Lemma call_handlers_eject k payload hs : forall s,
  let s' := fold_left (call_handler k payload) hs s in
  length (request_handlers s') = length (request_handlers s) /\
  subscriptions (bus s') = subscriptions (bus s) /\
  (forall j, nth_error (request_handlers s) j = Some None ->
             nth_error (request_handlers s') j = Some None) /\
  (forall id, In (EjectInterceptor id) hs -> id < length (request_handlers s) ->
              nth_error (request_handlers s') id = Some None).
Proof.
  induction hs as [|h hs IH]; intro s; cbn [fold_left].
  - repeat split; auto. intros id [].
  - destruct (IH (call_handler k payload s h)) as (Hlen & Hsub & Hkeep & Hej).
    cbv zeta in *.
    assert (length (request_handlers (call_handler k payload s h))
            = length (request_handlers s)) as Hlen1.
    { destruct h; simpl; [apply eject_length|reflexivity]. }
    assert (forall j, nth_error (request_handlers s) j = Some None ->
                      nth_error (request_handlers (call_handler k payload s h)) j
                      = Some None) as Hkeep1.
    { intros j Hj. destruct h; simpl; [now apply eject_nth_none|exact Hj]. }
    repeat split.
    + congruence.
    + rewrite Hsub. destruct h; reflexivity.
    + intros j Hj. apply Hkeep, Hkeep1, Hj.
    + intros id [->|Hin] Hid.
      * apply Hkeep. simpl. now apply eject_nth_same.
      * apply Hej; [exact Hin|]. now rewrite Hlen1.
Qed.

Lemma well_subscribed_emit k payload s :
  well_subscribed s -> well_subscribed (emit k payload s).
Proof.
  intros H id. unfold emit.
  match goal with |- context [fold_left _ ?hs ?s1] =>
    destruct (call_handlers_eject k payload hs s1) as (Hlen & Hsub & _)
  end.
  cbv zeta in Hlen, Hsub. rewrite Hlen, Hsub. simpl. apply H.
Qed.

Lemma all_none_inactive hs :
  (forall j, j < length hs -> nth_error hs j = Some None) ->
  forall c, run_request_interceptors hs c = c.
Proof.
  induction hs as [|h hs IH]; intros H c; [reflexivity|].
  pose proof (H 0 ltac:(simpl; lia)) as H0. simpl in H0. inversion H0; subst h.
  simpl. apply IH. intros j Hj. apply (H (S j)). simpl. lia.
Qed.

(** After a [logout] event no interceptor of a well-subscribed session is
    left. *)
Lemma emit_logout_ejects_all payload s :
  well_subscribed s ->
  forall j, j < length (request_handlers (emit Emitter.logout payload s)) ->
            nth_error (request_handlers (emit Emitter.logout payload s)) j = Some None.
Proof.
  intros H j. unfold emit.
  match goal with |- context [fold_left _ ?hs ?s1] =>
    destruct (call_handlers_eject Emitter.logout payload hs s1) as (Hlen & _ & _ & Hej)
  end.
  cbv zeta in Hlen, Hej. rewrite Hlen. simpl. intro Hj.
  apply Hej; [|exact Hj].
  unfold handlers_for. apply in_map_iff.
  exists (Emitter.logout, EjectInterceptor j). split; [reflexivity|].
  apply filter_In. split; [now apply H|reflexivity].
Qed.

(** ** More facts about the methods *)

Lemma get_prop_throws_TypeError v k e : get_prop v k = inl e -> e = TypeError.
Proof.
  destruct v; simpl; try discriminate; try (intro H; now inversion H).
  destruct (assoc k fields); discriminate.
Qed.

Lemma first_active_none_iff hs :
  (forall j, j < length hs -> nth_error hs j = Some None) -> first_active hs = None.
Proof.
  induction hs as [|h hs IH]; intro H; [reflexivity|].
  pose proof (H 0 ltac:(simpl; lia)) as H0. simpl in H0. inversion H0; subst h.
  simpl. apply IH. intros j Hj. apply (H (S j)). simpl. lia.
Qed.

Lemma first_active_after_inactive hs t :
  first_active hs = None ->
  first_active (hs ++ [Some t]) = if truthy t then Some t else None.
Proof.
  induction hs as [|[t'|] hs IH]; simpl; intro H; [reflexivity| |now apply IH].
  destruct (truthy t'); [discriminate|now apply IH].
Qed.

Section MethodFacts.

Variable Srv : Type.
Variable serve : Srv -> config -> Srv * outcome.

(** X8: the constructor's session has, and every method keeps, a [logout]
    handler ejecting each slot of the request interceptors: the handler
    [useCredentials] registers is never lost. *)
Theorem methods_keep_the_eject_handlers b :
  well_subscribed (create b) /\
  (forall fuel c, preserves (Srv := Srv) well_subscribed (request serve fuel c)) /\
  (forall fuel, preserves (Srv := Srv) well_subscribed (fetchUser serve fuel)) /\
  (forall fuel, preserves (Srv := Srv) well_subscribed (refreshToken serve fuel)) /\
  (forall fuel credentials,
      preserves (Srv := Srv) well_subscribed (authWithDiscord serve fuel credentials)) /\
  (forall fuel, preserves (Srv := Srv) well_subscribed (logout serve fuel)).
Proof.
  assert (forall fuel c, preserves (Srv := Srv) well_subscribed (request serve fuel c))
    as Hreq.
  { intros fuel c. apply preserves_request.
    - apply well_subscribed_set_user.
    - apply well_subscribed_useCredentials.
    - apply well_subscribed_console_error. }
  split; [apply well_subscribed_create|]. split; [exact Hreq|].
  split; [|split; [|split]].
  - intro fuel. apply preserves_fetchUser_body; [apply well_subscribed_set_user|].
    apply Hreq.
  - intro fuel. apply preserves_refreshToken_body;
      [apply well_subscribed_set_user|apply well_subscribed_useCredentials|apply Hreq].
  - intros fuel credentials. unfold authWithDiscord, authWithDiscord_body, post.
    apply preserves_bind; [apply Hreq|]. intro x.
    repeat (apply preserves_bind; [apply preserves_lift|]; intro).
    apply preserves_bind.
    + apply preserves_modify, well_subscribed_set_userRefreshToken.
    + intros _. apply preserves_modify, well_subscribed_useCredentials.
  - intro fuel. unfold logout, logout_body, post.
    apply preserves_try_catch; [|intro; apply preserves_throw].
    apply preserves_bind; [apply Hreq|]. intros _.
    apply preserves_bind; [apply preserves_modify, well_subscribed_set_user|]. intros _.
    apply preserves_bind;
      [apply preserves_modify, well_subscribed_set_userRefreshToken|]. intros _.
    apply preserves_modify, well_subscribed_emit.
Qed.

(** How [logout] runs when it returns. *)
Lemma logout_returned_parts fuel (w : world Srv) w' :
  logout serve fuel w = Returned tt w' ->
  exists x w1,
    request serve fuel (mkConfig POST "/api/auth/logout" [] VUndefined) w
      = Returned x w1 /\
    w' = mkWorld (emit Emitter.logout VNull
                    (set_userRefreshToken VUndefined (set_user VUndefined (sess w1))))
                 (srv w1) (traffic w1).
Proof.
  unfold logout, logout_body, post, try_catch, bind, modify, throw.
  destruct (request serve fuel (mkConfig POST "/api/auth/logout" [] VUndefined) w)
    as [x w1|e1 w1|]; try discriminate.
  intro H. inversion H. eauto.
Qed.

(** What a returning [logout] leaves of a well-subscribed session. *)
Lemma logout_leaves_nothing_installed fuel (w : world Srv) w' :
  well_subscribed (sess w) ->
  logout serve fuel w = Returned tt w' ->
  (forall j, j < length (request_handlers (sess w')) ->
             nth_error (request_handlers (sess w')) j = Some None) /\
  length (request_handlers (sess w')) >= length (request_handlers (sess w)) /\
  _user (sess w') = VUndefined /\
  userRefreshToken (sess w') = VUndefined.
Proof.
  intros Hinv Hrun.
  destruct (logout_returned_parts fuel w w' Hrun) as (x & w1 & Hpost & ->).
  assert (well_subscribed (sess w1)) as Hinv1.
  { pose proof (preserves_request Srv serve well_subscribed
                  well_subscribed_set_user well_subscribed_useCredentials
                  well_subscribed_console_error fuel
                  (mkConfig POST "/api/auth/logout" [] VUndefined) w Hinv) as Hp.
    now rewrite Hpost in Hp. }
  pose proof (in_frame_request Srv serve fuel
                (mkConfig POST "/api/auth/logout" [] VUndefined) w) as F.
  rewrite Hpost in F. destruct F as (_ & [more Hmore] & _).
  set (s0 := set_userRefreshToken VUndefined (set_user VUndefined (sess w1))).
  assert (well_subscribed s0) as Hinv0.
  { apply well_subscribed_set_userRefreshToken, well_subscribed_set_user, Hinv1. }
  pose proof (emit_logout_ejects_all VNull s0 Hinv0) as Hnone.
  destruct (emit_effect Emitter.logout VNull s0) as (Hu & Hr & _).
  cbn [sess]. repeat split; trivial.
  unfold emit.
  match goal with |- context [fold_left _ ?hs ?s1] =>
    destruct (call_handlers_eject Emitter.logout VNull hs s1) as (Hlen & _)
  end.
  cbv zeta in Hlen. rewrite Hlen. subst s0. simpl. rewrite Hmore, length_app. lia.
Qed.

(** X9: in such a session a [logout] that returns has ejected every
    request interceptor (the slots stay, emptied): requests go out with the
    headers they were given, the [wallet] getter throws a TypeError and
    [isLoggedIn] is false. *)
Theorem logout_ejects_every_interceptor fuel (w : world Srv) w' :
  well_subscribed (sess w) ->
  logout serve fuel w = Returned tt w' ->
  first_active (request_handlers (sess w')) = None /\
  (forall c, run_request_interceptors (request_handlers (sess w')) c = c) /\
  length (request_handlers (sess w')) >= length (request_handlers (sess w)) /\
  wallet (sess w') = inl TypeError /\
  isLoggedIn (sess w') = false.
Proof.
  intros Hinv Hrun.
  destruct (logout_leaves_nothing_installed fuel w w' Hinv Hrun)
    as (Hnone & Hlen & Hu & Hr).
  repeat split.
  - now apply first_active_none_iff.
  - now apply all_none_inactive.
  - exact Hlen.
  - unfold wallet. now rewrite Hu.
  - unfold isLoggedIn. now rewrite Hu.
Qed.

(** [authWithDiscord] on a session without a refresh credential, spelled
    out. *)
Lemma authWithDiscord_without_credential fuel credentials (w : world Srv) :
  truthy (userRefreshToken (sess w)) = false ->
  let c1 := run_request_interceptors (request_handlers (sess w))
              (mkConfig POST "/api/auth/discord" [] credentials) in
  let out := snd (serve (srv w) c1) in
  let w1 := mkWorld (sess w) (fst (serve (srv w) c1)) (traffic w ++ [(c1, out)]) in
  let body := match out with
              | Reply status body => if validateStatus status then body else VUndefined
              | NoReply => VUndefined
              end in
  authWithDiscord serve (S fuel) credentials w =
    match get_prop body "access" with
    | inl e => Thrown e w1
    | inr access =>
        match get_prop access "token" with
        | inl e => Thrown e w1
        | inr accessToken =>
            match get_prop body "refresh" with
            | inl e => Thrown e w1
            | inr refresh =>
                match get_prop refresh "token" with
                | inl e => Thrown e w1
                | inr token =>
                    Returned tt
                      (mkWorld (useCredentials accessToken
                                  (set_userRefreshToken token (sess w)))
                               (srv w1) (traffic w1))
                end
            end
        end
    end.
Proof.
  intros Htok c1 out w1 body. remember (S fuel) as n eqn:Hn.
  unfold authWithDiscord, authWithDiscord_body, post, bind. subst n.
  rewrite (request_without_credential Srv serve fuel _ w Htok). cbv zeta.
  fold c1. fold out. fold w1.
  assert (data_of match out with
                  | Reply status body0 =>
                      if validateStatus status
                      then IsResponse (mkResponse status body0 c1)
                      else IsError (mkError c1 (Some (mkResponse status body0 c1)))
                  | NoReply => IsError (mkError c1 None)
                  end = body) as ->.
  { subst body. destruct out as [status b|]; [destruct (validateStatus status)|];
      reflexivity. }
  unfold lift, throw, ret, modify.
  destruct (get_prop body "access") as [e|access]; [reflexivity|].
  destruct (get_prop access "token") as [e|accessToken]; [reflexivity|].
  destruct (get_prop body "refresh") as [e|refresh]; [reflexivity|].
  destruct (get_prop refresh "token") as [e|token]; reflexivity.
Qed.

(** X10: on a session without a refresh credential, an
    [authWithDiscord] that throws throws a TypeError, after one exchange,
    and commits nothing: the session is as it was, also when the body had
    the access credential and lacked the refresh credential. *)
Theorem failed_login_commits_nothing fuel credentials (w : world Srv) e w' :
  truthy (userRefreshToken (sess w)) = false ->
  authWithDiscord serve fuel credentials w = Thrown e w' ->
  e = TypeError /\
  sess w' = sess w /\
  exists c1 out, traffic w' = traffic w ++ [(c1, out)].
Proof.
  intros Htok. destruct fuel as [|fuel]; [discriminate|].
  rewrite (authWithDiscord_without_credential fuel credentials w Htok). cbv zeta.
  set (w1 := mkWorld _ _ _).
  assert (forall e0, Thrown (A := unit) e0 w1 = Thrown e w' ->
                     e0 = TypeError ->
                     e = TypeError /\ sess w' = sess w /\
                     exists c1 out, traffic w' = traffic w ++ [(c1, out)]) as Hthrown.
  { intros e0 H He0. inversion H; subst. repeat split. subst w1. cbn [traffic]. eauto. }
  destruct (get_prop _ "access") as [e1|access] eqn:E1;
    [intro H; apply (Hthrown e1 H), (get_prop_throws_TypeError _ _ _ E1)|].
  destruct (get_prop access "token") as [e2|accessToken] eqn:E2;
    [intro H; apply (Hthrown e2 H), (get_prop_throws_TypeError _ _ _ E2)|].
  destruct (get_prop _ "refresh") as [e3|refresh] eqn:E3;
    [intro H; apply (Hthrown e3 H), (get_prop_throws_TypeError _ _ _ E3)|].
  destruct (get_prop refresh "token") as [e4|token] eqn:E4;
    [intro H; apply (Hthrown e4 H), (get_prop_throws_TypeError _ _ _ E4)|].
  discriminate.
Qed.

(** X11: on a session without a refresh credential, a login that is not
    answered, or answered with a status outside 2xx, makes
    [authWithDiscord] throw a TypeError (it reads [data] of the error
    object), the session untouched. *)
Theorem rejected_login_throws_TypeError fuel credentials (w : world Srv) srv1 out :
  truthy (userRefreshToken (sess w)) = false ->
  let c1 := run_request_interceptors (request_handlers (sess w))
              (mkConfig POST "/api/auth/discord" [] credentials) in
  serve (srv w) c1 = (srv1, out) ->
  match out with
  | Reply status _ => validateStatus status = false
  | NoReply => True
  end ->
  authWithDiscord serve (S fuel) credentials w =
    Thrown TypeError (mkWorld (sess w) srv1 (traffic w ++ [(c1, out)])).
Proof.
  intros Htok c1 Hserve Hout.
  rewrite (authWithDiscord_without_credential fuel credentials w Htok). cbv zeta.
  fold c1. rewrite Hserve. cbn [fst snd].
  destruct out as [status body|]; [rewrite Hout|]; reflexivity.
Qed.

(** X12: on a fresh client a login that returns took one exchange,
    answered 2xx; it stored [refresh.token] of the body, installed one
    interceptor, for [access.token]; no user is stored, so [isLoggedIn] is
    still false; and when the access token is truthy every request from
    then on carries it. *)
Theorem login_on_a_fresh_client fuel credentials b (w : world Srv) w' :
  sess w = create b ->
  authWithDiscord serve fuel credentials w = Returned tt w' ->
  exists c1 status body access accessToken refresh token,
    traffic w' = traffic w ++ [(c1, Reply status body)] /\
    validateStatus status = true /\
    get_prop body "access" = inr access /\
    get_prop access "token" = inr accessToken /\
    get_prop body "refresh" = inr refresh /\
    get_prop refresh "token" = inr token /\
    userRefreshToken (sess w') = token /\
    request_handlers (sess w') = [Some accessToken] /\
    user (sess w') = VUndefined /\
    isLoggedIn (sess w') = false /\
    (truthy accessToken = true ->
     forall c, header "Authorization"
                 (run_request_interceptors (request_handlers (sess w')) c)
               = Some ("Bearer " ++ template accessToken)%string).
Proof.
  intros Hfresh.
  assert (truthy (userRefreshToken (sess w)) = false) as Htok by now rewrite Hfresh.
  destruct fuel as [|fuel]; [discriminate|].
  rewrite (authWithDiscord_without_credential fuel credentials w Htok). cbv zeta.
  set (c1 := run_request_interceptors (request_handlers (sess w))
               (mkConfig POST "/api/auth/discord" [] credentials)).
  destruct (snd (serve (srv w) c1)) as [status body|] eqn:Hout;
    [destruct (validateStatus status) eqn:Hvalid|]; try discriminate.
  destruct (get_prop body "access") as [e|access] eqn:E1; [discriminate|].
  destruct (get_prop access "token") as [e|accessToken] eqn:E2; [discriminate|].
  destruct (get_prop body "refresh") as [e|refresh] eqn:E3; [discriminate|].
  destruct (get_prop refresh "token") as [e|token] eqn:E4; [discriminate|].
  intro H. inversion H; subst w'. clear H.
  exists c1, status, body, access, accessToken, refresh, token.
  cbn [sess traffic]. rewrite Hfresh.
  repeat split; trivial.
  intros Ha c. now apply oldest_interceptor_wins.
Qed.

(** X13: a login after a [logout] of a well-subscribed session puts its
    access token in force: the interceptors of the earlier session are
    ejected, and requests carry the new token (or, when that is falsy, no
    credential of the client). *)
Theorem login_after_logout_installs_the_new_credential
        fuel fuel' credentials (w : world Srv) w1 w2 :
  well_subscribed (sess w) ->
  logout serve fuel w = Returned tt w1 ->
  authWithDiscord serve fuel' credentials w1 = Returned tt w2 ->
  exists accessToken,
    In (Some accessToken) (request_handlers (sess w2)) /\
    first_active (request_handlers (sess w2))
      = (if truthy accessToken then Some accessToken else None) /\
    forall c,
      header "Authorization" (run_request_interceptors (request_handlers (sess w2)) c)
      = if truthy accessToken
        then Some ("Bearer " ++ template accessToken)%string
        else header "Authorization" c.
Proof.
  intros Hinv Hout Hin.
  destruct (logout_leaves_nothing_installed fuel w w1 Hinv Hout)
    as (Hnone' & _ & _ & Htok').
  assert (first_active (request_handlers (sess w1)) = None) as Hnone
      by now apply first_active_none_iff.
  assert (truthy (userRefreshToken (sess w1)) = false) as Htok by now rewrite Htok'.
  destruct fuel' as [|fuel']; [discriminate|].
  rewrite (authWithDiscord_without_credential fuel' credentials w1 Htok) in Hin.
  cbv zeta in Hin.
  repeat match type of Hin with
         | context [match get_prop ?v ?k with _ => _ end] =>
             destruct (get_prop v k); [discriminate|]
         end.
  inversion Hin; subst w2. clear Hin. cbn [sess].
  match goal with |- context [useCredentials ?t _] => exists t; set (a := t) end.
  unfold useCredentials, use.
  cbn [request_handlers on set_bus set_request_handlers set_userRefreshToken].
  assert (first_active (request_handlers (sess w1) ++ [Some a])
          = if truthy a then Some a else None) as Hfirst
      by now apply first_active_after_inactive.
  split; [apply in_or_app; right; now left|]. split; [exact Hfirst|].
  intro c. rewrite interceptors_as_first_active, Hfirst.
  destruct (truthy a); [|reflexivity].
  unfold header, set_header. cbn [headers]. now rewrite header_after_set.
Qed.

End MethodFacts.

Section FetchFacts.

Variable Srv : Type.
Variable serve : Srv -> config -> Srv * outcome.

(** X14: whenever [fetchUser] returns, the value it returns is [data] of
    what the identity request settled with, the [user] getter gives that
    value and the [wallet] getter its [wallet] field; [isLoggedIn] is its
    truthiness together with that of the refresh credential.  When the
    request settled with an error object the [wallet] getter throws a
    TypeError. *)
Theorem fetchUser_stores_what_it_got fuel (w : world Srv) u w' :
  fetchUser serve fuel w = Returned u w' ->
  user (sess w') = u /\
  wallet (sess w') = get_prop u "wallet" /\
  isLoggedIn (sess w') = truthy u && truthy (userRefreshToken (sess w)) /\
  exists y w2,
    request serve fuel (mkConfig GET "/api/users/me" [] VUndefined) w = Returned y w2 /\
    u = data_of y /\
    (forall error, y = IsError error -> wallet (sess w') = inl TypeError).
Proof.
  unfold fetchUser, fetchUser_body, get, bind, modify, ret.
  pose proof (in_frame_request Srv serve fuel
                (mkConfig GET "/api/users/me" [] VUndefined) w) as F.
  destruct (request serve fuel (mkConfig GET "/api/users/me" [] VUndefined) w)
    as [y w2|e w2|]; try discriminate.
  destruct F as (_ & _ & Htok & _).
  intro H. inversion H; subst u w'. clear H.
  unfold user, wallet, isLoggedIn. cbn [sess _user set_user userRefreshToken].
  rewrite Htok. repeat split.
  exists y, w2. repeat split. intros error ->. reflexivity.
Qed.

Lemma request_first_exchange fuel c (w : world Srv) x w' :
  request serve (S fuel) c w = Returned x w' ->
  let c1 := run_request_interceptors (request_handlers (sess w)) c in
  exists rest, traffic w' = traffic w ++ (c1, snd (serve (srv w) c1)) :: rest.
Proof.
  rewrite request_S. cbv zeta.
  set (c1 := run_request_interceptors (request_handlers (sess w)) c).
  set (w1 := mkWorld (sess w) (fst (serve (srv w) c1))
                     (traffic w ++ [(c1, snd (serve (srv w) c1))])).
  intro H.
  assert (exists l, traffic w' = traffic w1 ++ l) as [l Hl].
  { destruct (snd (serve (srv w) c1)) as [status body|] eqn:Hout.
    - destruct (validateStatus status).
      + inversion H; subst. exists []. now rewrite app_nil_r.
      + pose proof (in_frame_response_rejected Srv (request serve fuel)
                      (in_frame_request Srv serve fuel)
                      (mkError c1 (Some (mkResponse status body c1))) w1) as F.
        rewrite H in F. apply F.
    - pose proof (in_frame_response_rejected Srv (request serve fuel)
                    (in_frame_request Srv serve fuel) (mkError c1 None) w1) as F.
      rewrite H in F. apply F. }
  exists l. rewrite Hl. subst w1. cbn [traffic]. now rewrite <- app_assoc.
Qed.

Lemma refreshToken_thrown_parts fuel (w : world Srv) e w' :
  truthy (userRefreshToken (sess w)) = true ->
  refreshToken serve fuel w = Thrown e w' ->
  exists x,
    request serve fuel
      (mkConfig POST "/api/auth/refresh"
         [("Authorization", ("Bearer " ++ template (userRefreshToken (sess w)))%string)]
         VUndefined) w = Returned x w'.
Proof.
  intro Htok.
  unfold refreshToken, refreshToken_body, fetchUser_body, post, get.
  unfold try_catch, bind, this, throw, ret, modify. rewrite Htok. cbn [negb].
  match goal with |- context [request serve fuel ?c w] => set (c0 := c) end.
  pose proof (request_never_throws Srv serve fuel c0 w) as Hnt.
  destruct (request serve fuel c0 w) as [x w1|e1 w1|]; try discriminate.
  2: now contradiction (Hnt e1 w1).
  unfold lift, throw, ret.
  destruct (get_prop (data_of x) "token") as [e1|t].
  - intro H. inversion H. eauto.
  - match goal with |- context [request serve fuel ?c ?w0] =>
      lazymatch c with
      | mkConfig GET _ _ _ =>
          pose proof (request_never_throws Srv serve fuel c w0) as Hnt';
          destruct (request serve fuel c w0) as [y w2|e2 w2|]; try discriminate
      end
    end.
    now contradiction (Hnt' e2 w2).
Qed.

(** X15: the request [refreshToken] sends first is a POST of
    /api/auth/refresh with one Authorization header.  It carries the refresh
    credential only when no request interceptor is active (a session
    restored by setting [userRefreshToken]); with an active interceptor it
    carries that interceptor's access token instead. *)
Theorem refresh_request_credential fuel (w : world Srv) :
  truthy (userRefreshToken (sess w)) = true ->
  let c1 := run_request_interceptors (request_handlers (sess w))
              (mkConfig POST "/api/auth/refresh"
                 [("Authorization",
                   ("Bearer " ++ template (userRefreshToken (sess w)))%string)]
                 VUndefined) in
  method c1 = POST /\ url c1 = "/api/auth/refresh" /\
  header_count "Authorization" c1 = 1 /\
  header "Authorization" c1 =
    Some ("Bearer " ++ template match first_active (request_handlers (sess w)) with
                                | Some accessToken => accessToken
                                | None => userRefreshToken (sess w)
                                end)%string /\
  match refreshToken serve fuel w with
  | Returned _ w' | Thrown _ w' =>
      exists out rest, traffic w' = traffic w ++ (c1, out) :: rest
  | OutOfFuel => True
  end.
Proof.
  intros Htok c1.
  destruct (run_request_interceptors_keeps (request_handlers (sess w))
              (mkConfig POST "/api/auth/refresh"
                 [("Authorization",
                   ("Bearer " ++ template (userRefreshToken (sess w)))%string)]
                 VUndefined)) as (Hu & Hm & _).
  fold c1 in Hu, Hm. split; [exact Hm|]. split; [exact Hu|].
  assert (header_count "Authorization" c1 = 1 /\
          header "Authorization" c1 =
            Some ("Bearer " ++ template match first_active (request_handlers (sess w)) with
                                        | Some accessToken => accessToken
                                        | None => userRefreshToken (sess w)
                                        end)%string) as [Hc Hh].
  { subst c1. rewrite interceptors_as_first_active.
    destruct (first_active (request_handlers (sess w))) as [a|]; split; reflexivity. }
  split; [exact Hc|]. split; [exact Hh|].
  destruct (refreshToken serve fuel w) as [v w'|e w'|] eqn:Hrun; trivial.
  - destruct (refreshToken_returned_parts Srv serve fuel w v w' Hrun)
      as (_ & x & w1 & t & y & w2 & Hpost & _ & _ & Hget & ->).
    destruct fuel as [|fuel]; [discriminate|].
    destruct (request_first_exchange fuel _ w x w1 Hpost) as [rest Hrest].
    cbv zeta in Hrest. fold c1 in Hrest.
    match type of Hget with request _ _ ?cg ?wg = _ =>
      pose proof (in_frame_request Srv serve (S fuel) cg wg) as F
    end.
    rewrite Hget in F. destruct F as ([l Hl] & _). cbn [traffic] in Hl |- *.
    rewrite Hl, Hrest. rewrite <- app_assoc. cbn [app]. eauto.
  - destruct (refreshToken_thrown_parts fuel w e w' Htok Hrun) as [x Hpost].
    destruct fuel as [|fuel]; [discriminate|].
    destruct (request_first_exchange fuel _ w x w' Hpost) as [rest Hrest].
    cbv zeta in Hrest. fold c1 in Hrest. eauto.
Qed.

End FetchFacts.

(** ** Room ids *)

Lemma hex_lower_is_lower_hex n : n < 16 -> is_lower_hex (hex_lower n) = true.
Proof.
  intro H. do 16 (destruct n as [|n]; [reflexivity|]). lia.
Qed.

Lemma hex_lower_inj x y : x < 16 -> y < 16 -> hex_lower x = hex_lower y -> x = y.
Proof.
  intros Hx Hy.
  do 16 (destruct x as [|x];
         [do 16 (destruct y as [|y]; [vm_compute; congruence|]); lia|]).
  lia.
Qed.

Lemma lower_hex_is_unreserved a : is_lower_hex a = true -> unreserved a = true.
Proof.
  destruct a as [[] [] [] [] [] [] [] []]; vm_compute; trivial.
Qed.

Lemma toString_hex_length bytes :
  String.length (toString_hex bytes) = 2 * List.length bytes.
Proof. induction bytes as [|b bytes IH]; simpl; [reflexivity|]. rewrite IH. lia. Qed.

Lemma byte_nibbles b :
  Byte.to_nat b / 16 < 16 /\ Byte.to_nat b mod 16 < 16.
Proof.
  pose proof (Byte.to_nat_bounded b) as Hb. split.
  - apply Nat.Div0.div_lt_upper_bound. lia.
  - apply Nat.mod_upper_bound. lia.
Qed.

Lemma toString_hex_digits bytes :
  string_forall is_lower_hex (toString_hex bytes) = true.
Proof.
  induction bytes as [|b bytes IH]; [reflexivity|].
  destruct (byte_nibbles b) as [Hh Hl]. cbn [toString_hex string_forall].
  now rewrite (hex_lower_is_lower_hex _ Hh), (hex_lower_is_lower_hex _ Hl), IH.
Qed.

Lemma toString_hex_inj bytes : forall bytes',
  toString_hex bytes = toString_hex bytes' -> bytes = bytes'.
Proof.
  induction bytes as [|b bytes IH]; intros [|b' bytes']; cbn [toString_hex];
    try discriminate; [reflexivity|].
  intro H. inversion H as [[Hh Hl Hrest]].
  destruct (byte_nibbles b) as [Hbh Hbl]. destruct (byte_nibbles b') as [Hbh' Hbl'].
  pose proof (hex_lower_inj _ _ Hbh Hbh' Hh) as Hq.
  pose proof (hex_lower_inj _ _ Hbl Hbl' Hl) as Hr.
  assert (Byte.to_nat b = Byte.to_nat b') as Hn.
  { rewrite (Nat.div_mod_eq (Byte.to_nat b) 16), (Nat.div_mod_eq (Byte.to_nat b') 16).
    now rewrite Hq, Hr. }
  f_equal; [|now apply IH].
  apply (f_equal Byte.of_nat) in Hn. rewrite !Byte.of_to_nat in Hn. now inversion Hn.
Qed.

Lemma urlencode_unreserved s :
  string_forall unreserved s = true -> urlencode s = s.
Proof.
  induction s as [|a s IH]; simpl; [reflexivity|].
  intro H. apply andb_true_iff in H as [Ha Hs]. now rewrite Ha, IH.
Qed.

Lemma string_forall_impl (p q : ascii -> bool) s :
  (forall a, p a = true -> q a = true) ->
  string_forall p s = true -> string_forall q s = true.
Proof.
  intro Hpq. induction s as [|a s IH]; simpl; [reflexivity|].
  intro H. apply andb_true_iff in H as [Ha Hs]. now rewrite (Hpq a Ha), IH.
Qed.

(** X16: when the source of randomness yields the 20 bytes asked for, a
    room id is 40 characters long, each a digit or a letter a to f. *)
Theorem getRoomId_is_forty_hex_digits randomBytes :
  List.length (randomBytes 20) = 20 ->
  String.length (getRoomId randomBytes) = 40 /\
  string_forall is_lower_hex (getRoomId randomBytes) = true.
Proof.
  intro H. unfold getRoomId. rewrite toString_hex_length, H.
  split; [reflexivity|apply toString_hex_digits].
Qed.

(** X17: two room ids are equal exactly when the random bytes they were
    made of are. *)
Theorem getRoomId_tells_the_bytes_apart randomBytes randomBytes' :
  getRoomId randomBytes = getRoomId randomBytes' <-> randomBytes 20 = randomBytes' 20.
Proof.
  unfold getRoomId. split; [apply toString_hex_inj|now intros ->].
Qed.

(** X18: for a generated room id the path of [createWallet] is
    /auth?roomId= followed by the id as it is, nothing in it being escaped;
    the query reads back as that one entry. *)
Theorem createWallet_with_a_generated_roomId s pg randomBytes :
  let roomId := getRoomId randomBytes in
  getPath "/auth" [("roomId", VStr roomId)] = ("/auth?roomId=" ++ roomId)%string /\
  createWallet s pg (VStr roomId)
    = open_and_listen s pg ("/auth?roomId=" ++ roomId)%string /\
  parse_query (query_of [("roomId", VStr roomId)]) = [("roomId", roomId)].
Proof.
  intro roomId.
  assert (getPath "/auth" [("roomId", VStr roomId)] = ("/auth?roomId=" ++ roomId)%string)
    as Hpath.
  { unfold getPath, query_of, fromEntries.
    cbn [filter snd is_string fold_left fst obj_set URLSearchParams_toString
         string_of_value template].
    rewrite (urlencode_unreserved roomId).
    - reflexivity.
    - apply (string_forall_impl is_lower_hex); [apply lower_hex_is_unreserved|].
      apply toString_hex_digits. }
  split; [exact Hpath|]. split.
  - unfold createWallet. now rewrite Hpath.
  - apply query_of_object. simpl. constructor; [intros []|constructor].
Qed.

(** ** More facts about the path builder *)

Lemma append_cancel_l (s t u : string) : (s ++ t)%string = (s ++ u)%string -> t = u.
Proof.
  induction s as [|a s IH]; simpl; intro H; [exact H|]. inversion H. now apply IH.
Qed.

Lemma filter_none {A : Type} (f : A -> bool) (l : list A) :
  (forall x, In x l -> f x = false) -> filter f l = [].
Proof.
  induction l as [|x l IH]; simpl; intro H; [reflexivity|].
  rewrite (H x (or_introl eq_refl)). apply IH. intros y Hy. apply H. now right.
Qed.

(** X19: for data without a string-valued entry (empty data included)
    [getPath] gives the url followed by a bare question mark. *)
Theorem getPath_without_string_entries url data :
  (forall p, In p data -> is_string (snd p) = false) ->
  getPath url data = (url ++ "?")%string.
Proof.
  intro H. unfold getPath, query_of. rewrite (filter_none _ _ H). reflexivity.
Qed.

(** X20: on objects, [getPath] gives the same path for the same url only
    when the string-valued entries are the same, in the same order. *)
Theorem getPath_tells_payloads_apart url data data' :
  NoDup (map fst data) -> NoDup (map fst data') ->
  getPath url data = getPath url data' ->
  string_entries data = string_entries data'.
Proof.
  intros Hd Hd' H. unfold getPath in H.
  apply append_cancel_l in H. apply (append_cancel_l "?") in H.
  rewrite <- (query_of_object data Hd), <- (query_of_object data' Hd'). now rewrite H.
Qed.

Lemma urlencode_form_safe s : string_forall is_form_safe (urlencode s) = true.
Proof.
  induction s as [|a s IH]; [reflexivity|].
  cbn [urlencode]. destruct (unreserved a) eqn:Hu.
  - cbn [string_forall]. unfold is_form_safe at 1. now rewrite Hu, IH.
  - destruct (Ascii.eqb a " ").
    + cbn [string_forall]. now rewrite IH.
    + cbn [string_forall]. rewrite IH.
      assert (forall n, n < 16 -> is_form_safe (hex_digit n) = true) as Hhex.
      { intros n Hn. do 16 (destruct n as [|n]; [reflexivity|]). lia. }
      pose proof (nat_ascii_bounded a) as Hb.
      rewrite !Hhex; [reflexivity| |].
      * apply Nat.mod_upper_bound. lia.
      * apply Nat.Div0.div_lt_upper_bound. lia.
Qed.

Lemma string_forall_app p s t :
  string_forall p (s ++ t)%string = string_forall p s && string_forall p t.
Proof.
  induction s as [|a s IH]; simpl; [reflexivity|]. rewrite IH. now rewrite andb_assoc.
Qed.

Lemma string_forall_free_of p sep s :
  p sep = false -> string_forall p s = true -> free_of sep s = true.
Proof.
  intro Hsep. induction s as [|a s IH]; simpl; [reflexivity|].
  intro H. apply andb_true_iff in H as [Ha Hs]. rewrite (IH Hs), andb_true_r.
  apply negb_true_iff. apply Ascii.eqb_neq. intros ->. congruence.
Qed.

Lemma toString_query_bytes params :
  string_forall is_query_byte (URLSearchParams_toString params) = true.
Proof.
  assert (forall s, string_forall is_query_byte (urlencode s) = true) as Henc.
  { intro s. apply (string_forall_impl is_form_safe); [|apply urlencode_form_safe].
    intros a Ha. unfold is_query_byte. now rewrite Ha. }
  induction params as [|[k v] rest IH]; [reflexivity|].
  cbn [URLSearchParams_toString].
  assert (string_forall is_query_byte
            (urlencode k ++ "=" ++ urlencode (string_of_value v))%string = true) as Hpair.
  { rewrite string_forall_app, Henc.
    change ("=" ++ urlencode (string_of_value v))%string
      with (String "=" (urlencode (string_of_value v))).
    cbn [string_forall andb]. now rewrite Henc. }
  destruct rest as [|p rest]; [exact Hpair|].
  rewrite string_forall_app, Hpair.
  change ("&" ++ URLSearchParams_toString (p :: rest))%string
    with (String "&" (URLSearchParams_toString (p :: rest))).
  cbn [string_forall andb]. now rewrite IH.
Qed.

(** X21: the query string [getPath] builds holds only ASCII letters and
    digits, the marks * - . _ + % and the separators & and =; in
    particular no space, #, ? or slash. *)
Theorem query_is_made_of_safe_bytes data :
  string_forall is_query_byte (query_of data) = true /\
  free_of " " (query_of data) = true /\
  free_of "#" (query_of data) = true /\
  free_of "?" (query_of data) = true /\
  free_of "/" (query_of data) = true.
Proof.
  pose proof (toString_query_bytes
                (fromEntries (filter (fun p => is_string (snd p)) data))) as H.
  fold (query_of data) in H.
  repeat split; trivial;
    apply (string_forall_free_of is_query_byte); trivial.
Qed.

(** ** More facts about the broker *)

Lemma resolve_twice p : resolve (resolve p) = resolve p.
Proof. destruct p; reflexivity. Qed.

Lemma after_messages_listening events : forall i base,
  listening i = Some base ->
  after_messages events i =
    mkInvocation
      (if existsb (trusted base) events then resolve (promise i) else promise i)
      (match popup i with
       | Some p => Some (if existsb (trusted_close base) events then close p else p)
       | None => None
       end)
      (listening i).
Proof.
  induction events as [|event events IH]; intros i base Hl.
  - destruct i as [pr [p|] l]; reflexivity.
  - destruct i as [pr pp l]. cbn [listening] in Hl. subst l.
    cbn [after_messages fold_left]. fold (after_messages events).
    unfold on_message. cbn [listening promise popup existsb].
    unfold trusted at 1, trusted_close at 1.
    destruct (String.eqb (origin event) base) eqn:Ho; cbn [orb andb].
    + erewrite IH by reflexivity. cbn [promise popup listening].
      rewrite resolve_twice.
      destruct (existsb (trusted base) events); f_equal;
        destruct pp as [p|]; trivial;
        destruct (strict_eq_str (payload event) "close"); cbn [orb];
        destruct (existsb (trusted_close base) events); reflexivity.
    + erewrite IH by reflexivity. reflexivity.
Qed.

(** X22: after any list of messages, an action opened in a page with a
    DOM is resolved exactly when one of them came from the base URL, and
    pending and untouched otherwise; its popup, when there is one, is
    closed exactly when one of them came from the base URL with the
    payload "close", before or after the promise was resolved. *)
Theorem messages_settle_the_action_once s pg path events :
  canUseDom pg = true ->
  let i := after_messages events (open_and_listen s pg path) in
  promise i = (if existsb (trusted (baseURL s)) events then Resolved else Pending) /\
  popup i = (if popup_blocked pg then None
             else Some (mkPopup (baseURL s ++ path)%string
                                (existsb (trusted_close (baseURL s)) events))) /\
  (promise i = Pending -> i = open_and_listen s pg path).
Proof.
  intros Hdom i. subst i.
  assert (open_and_listen s pg path =
          mkInvocation Pending
            (if popup_blocked pg then None
             else Some (mkPopup (baseURL s ++ path)%string false))
            (Some (baseURL s))) as Hopen.
  { unfold canUseDom in Hdom. unfold open_and_listen, openWindow.
    destruct (host_of pg) as [|[message|]|]; try discriminate. reflexivity. }
  rewrite (after_messages_listening events _ (baseURL s)) by now rewrite Hopen.
  rewrite Hopen. cbn [promise popup listening resolve].
  split; [reflexivity|]. split.
  - destruct (popup_blocked pg); [reflexivity|].
    destruct (existsb (trusted_close (baseURL s)) events); reflexivity.
  - destruct (existsb (trusted (baseURL s)) events) eqn:Ht; [discriminate|].
    intros _. destruct (popup_blocked pg); [reflexivity|].
    assert (existsb (trusted_close (baseURL s)) events = false) as ->; [|reflexivity].
    clear Hopen. induction events as [|e events IH]; [reflexivity|].
    cbn [existsb] in *. apply orb_false_iff in Ht as [Ht1 Ht2].
    unfold trusted_close at 1. unfold trusted in Ht1. rewrite Ht1. cbn [andb orb].
    now apply IH.
Qed.


(** ** The further facts on scripted services *)

Lemma failure_passes_through_as_a_value_witness :
  exists error w',
    request scripted 1 (mkConfig GET "/api/users/me" [] VUndefined)
      (logged_in "A" "R" identity_refused) = Returned (IsError error) w' /\
    option_map r_status (e_response error) = Some 500%Z.
Proof.
  do 2 eexists. split.
  - eapply (failure_passes_through_as_a_value script scripted 0
              (mkConfig GET "/api/users/me" [] VUndefined)
              (logged_in "A" "R" identity_refused)).
    + reflexivity.
    + split; [reflexivity|left; discriminate].
  - reflexivity.
Defined.

Lemma revoked_session_never_settles_witness :
  request revoked 7 get_tokens (mkWorld (logged_in_session "A" "R") tt []) = OutOfFuel.
Proof.
  apply (revoked_session_never_settles unit revoked 7 get_tokens).
  - intros st c'. do 2 eexists. reflexivity.
  - reflexivity.
Defined.

Lemma first_credential_outlives_refreshes_witness :
  match refreshToken scripted 1 (logged_in "A" "R" healthy) with
  | Returned _ w' | Thrown _ w' =>
      forall c, header "Authorization"
                  (run_request_interceptors (request_handlers (sess w')) c)
                = Some "Bearer A"
  | OutOfFuel => True
  end.
Proof.
  apply (first_credential_outlives_refreshes script scripted 1
           (logged_in "A" "R" healthy) (VStr "A") []); reflexivity.
Defined.

Lemma refreshToken_fails_with_one_error_witness :
  exists e w',
    refreshToken scripted 1 (logged_in "A" "R" refresh_refused) = Thrown e w' /\
    e = JsError "Refresh token failed" /\
    userRefreshToken (sess w') = VStr "R" /\
    emitted (bus (sess w')) = [].
Proof.
  do 2 eexists. split; [vm_compute; reflexivity|].
  apply (refreshToken_fails_with_one_error script scripted 1
           (logged_in "A" "R" refresh_refused)).
  vm_compute. reflexivity.
Defined.

Lemma refreshToken_keeps_the_refresh_credential_witness :
  exists rec w',
    refreshToken scripted 1 (logged_in "A" "R" healthy) = Returned rec w' /\
    userRefreshToken (sess w') = VStr "R" /\
    isLoggedIn (sess w') = truthy (_user (sess w')) /\
    exists accessToken,
      get_prop rec "token" = inr accessToken /\
      In (Some accessToken) (request_handlers (sess w')).
Proof.
  do 2 eexists. split; [vm_compute; reflexivity|].
  apply (refreshToken_keeps_the_refresh_credential script scripted 1
           (logged_in "A" "R" healthy)).
  vm_compute. reflexivity.
Defined.

Lemma refresh_request_credential_witness :
  let w := mkWorld (set_userRefreshToken (VStr "R") (create (VStr "https://wallet.example")))
                   healthy [] in
  exists c1,
    header "Authorization" c1 = Some "Bearer R" /\
    match refreshToken scripted 1 w with
    | Returned _ w' | Thrown _ w' =>
        exists out rest, traffic w' = traffic w ++ (c1, out) :: rest
    | OutOfFuel => True
    end.
Proof.
  intro w. eexists.
  pose proof (refresh_request_credential script scripted 1 w eq_refl) as H.
  cbv zeta in H. destruct H as (_ & _ & _ & Hh & Ht).
  split; [exact Hh|exact Ht].
Defined.

Lemma failed_login_commits_nothing_witness :
  let w := start malformed_login in
  exists e w',
    authWithDiscord scripted 1 credentials w = Thrown e w' /\
    e = TypeError /\ sess w' = sess w /\
    exists c1 out, traffic w' = traffic w ++ [(c1, out)].
Proof.
  intro w. do 2 eexists. split; [vm_compute; reflexivity|].
  apply (failed_login_commits_nothing script scripted 1 credentials w).
  - reflexivity.
  - vm_compute. reflexivity.
Defined.

Lemma rejected_login_throws_TypeError_witness :
  exists w', authWithDiscord scripted 1 credentials (start login_refused)
             = Thrown TypeError w'.
Proof.
  eexists.
  eapply (rejected_login_throws_TypeError script scripted 0 credentials
            (start login_refused)); reflexivity.
Defined.

Lemma login_on_a_fresh_client_witness :
  exists w',
    authWithDiscord scripted 1 credentials (start healthy) = Returned tt w' /\
    userRefreshToken (sess w') = VStr "R" /\
    isLoggedIn (sess w') = false.
Proof.
  eexists. split; [vm_compute; reflexivity|].
  destruct (login_on_a_fresh_client script scripted 1 credentials
              (VStr "https://wallet.example") (start healthy) _ eq_refl eq_refl)
    as (c1 & status & body & access & accessToken & refresh & token & H).
  split; [vm_compute; reflexivity|]. apply H.
Defined.

Lemma logout_ejects_every_interceptor_witness :
  exists w',
    logout scripted 1 (logged_in "A" "R" logout_refused) = Returned tt w' /\
    first_active (request_handlers (sess w')) = None /\
    wallet (sess w') = inl TypeError.
Proof.
  eexists. split; [vm_compute; reflexivity|].
  assert (well_subscribed (logged_in_session "A" "R")) as Hinv.
  { intros id Hid. simpl in Hid. assert (id = 0) as -> by lia. simpl. now left. }
  destruct (logout_ejects_every_interceptor script scripted 1
              (logged_in "A" "R" logout_refused) _ Hinv eq_refl)
    as (Hnone & _ & _ & Hw & _).
  split; [exact Hnone|exact Hw].
Defined.

Lemma login_after_logout_installs_the_new_credential_witness :
  exists w1 w2 accessToken,
    logout scripted 1 (logged_in "old" "R" logout_then_login) = Returned tt w1 /\
    authWithDiscord scripted 1 credentials w1 = Returned tt w2 /\
    In (Some accessToken) (request_handlers (sess w2)) /\
    forall c,
      header "Authorization" (run_request_interceptors (request_handlers (sess w2)) c)
      = if truthy accessToken
        then Some ("Bearer " ++ template accessToken)%string
        else header "Authorization" c.
Proof.
  assert (well_subscribed (logged_in_session "old" "R")) as Hinv.
  { intros id Hid. simpl in Hid. assert (id = 0) as -> by lia. simpl. now left. }
  destruct (login_after_logout_installs_the_new_credential script scripted 1 1
              credentials (logged_in "old" "R" logout_then_login) _ _ Hinv
              eq_refl eq_refl) as (a & Hin & _ & Hh).
  do 2 eexists. exists a.
  split; [reflexivity|]. split; [reflexivity|]. split; [exact Hin|exact Hh].
Defined.

Lemma fetchUser_stores_what_it_got_witness :
  exists w',
    fetchUser scripted 1 (logged_in "A" "R" healthy) = Returned a_user w' /\
    user (sess w') = a_user /\
    wallet (sess w') = inr (VObj [("eth_address", VStr "0xabc")]).
Proof.
  eexists. split; [vm_compute; reflexivity|].
  destruct (fetchUser_stores_what_it_got script scripted 1
              (logged_in "A" "R" healthy) a_user _ eq_refl) as (Hu & Hw & _).
  split; [exact Hu|exact Hw].
Defined.

Lemma getRoomId_is_forty_hex_digits_witness :
  String.length (getRoomId some_bytes) = 40 /\
  string_forall is_lower_hex (getRoomId some_bytes) = true.
Proof.
  apply (getRoomId_is_forty_hex_digits some_bytes). reflexivity.
Defined.

Lemma getPath_without_string_entries_witness :
  getPath "/auth" [("roomId", VUndefined)] = "/auth?".
Proof.
  apply (getPath_without_string_entries "/auth" [("roomId", VUndefined)]).
  intros p [<-|[]]. reflexivity.
Defined.

Lemma getPath_tells_payloads_apart_witness :
  string_entries a_transaction
  = string_entries [("to", VStr "0xdef"); ("gas", VNull); ("value", VStr "1 000")].
Proof.
  apply (getPath_tells_payloads_apart "/transaction/send" a_transaction
           [("to", VStr "0xdef"); ("gas", VNull); ("value", VStr "1 000")]).
  - simpl. repeat constructor; simpl; intuition discriminate.
  - simpl. repeat constructor; simpl; intuition discriminate.
  - reflexivity.
Defined.

Lemma messages_settle_the_action_once_witness :
  let s := logged_in_session "A" "R" in
  let i := after_messages some_messages (open_and_listen s a_page "/auth?roomId=ab12") in
  promise i = Resolved /\
  popup i = Some (mkPopup "https://wallet.example/auth?roomId=ab12" false).
Proof.
  intros s i.
  destruct (messages_settle_the_action_once s a_page "/auth?roomId=ab12" some_messages
              eq_refl) as (Hp & Hw & _).
  split; [exact Hp|exact Hw].
Defined.

